(** * A warehouse load pipeline and its data-quality rule engine

    Shallow embedding of [data_quality.py] and [etl_processes.py].

    Python integers are [Z]; text is [string]; dates and timestamps are
    [Z] (days, resp. seconds, since the epoch); SQL NULL and Python [None]
    are [None].  A Python float is the rational it denotes, and each
    floating-point operation rounds its exact result to binary64.  The
    relational store behind psycopg2 is a finite map from relation names to
    typed tables, and the statements the programs send are kept as syntax
    trees whose concrete text is quoted next to each constructor. *)

From Stdlib Require Import ZArith QArith Qround Qpower Lqa List Bool Ascii String Lia.
From Stdlib Require PrimFloat FloatOps SpecFloat Uint63.
From stdpp Require Import base option list gmap strings.

Local Open Scope Z_scope.

(** ** Exceptions, results and a state monad that survives a raise *)

Inductive exn :=
| OperationalError     (* psycopg2.connect could not reach the server *)
| DatabaseError        (* the server rejected a statement *)
| ValueError
| TypeError
| AttributeError
| UnboundLocalError.

Inductive result (A : Type) :=
| Ok (a : A)
| Raise (e : exn).
Arguments Ok {A} a.
Arguments Raise {A} e.

Definition is_ok {A} (r : result A) : bool :=
  match r with Ok _ => true | Raise _ => false end.

(** A computation reads and writes a state [S]; the state written before
    an exception is raised is kept, as in Python. *)
Definition M (S A : Type) : Type := S -> result A * S.

Definition ret {S A} (a : A) : M S A := fun s => (Ok a, s).
Definition raise {S A} (e : exn) : M S A := fun s => (Raise e, s).
Definition bind {S A B} (m : M S A) (k : A -> M S B) : M S B :=
  fun s => match m s with
           | (Ok a, s') => k a s'
           | (Raise e, s') => (Raise e, s')
           end.
Definition modify {S} (f : S -> S) : M S unit := fun s => (Ok tt, f s).
Definition lift {S A} (r : result A) : M S A := fun s => (r, s).

(** [try: body except Exception as e: handler e] *)
Definition try_except {S A} (body : M S A) (handler : exn -> M S A) : M S A :=
  fun s => match body s with
           | (Ok a, s') => (Ok a, s')
           | (Raise e, s') => handler e s'
           end.

(** [try: body finally: fin]: [fin] always runs, and an exception raised
    by [fin] replaces the outcome of [body]. *)
Definition try_finally {S A} (body : M S A) (fin : M S unit) : M S A :=
  fun s => match body s with
           | (r, s') => match fin s' with
                        | (Ok _, s'') => (r, s'')
                        | (Raise e, s'') => (Raise e, s'')
                        end
           end.

#[global] Instance M_ret {S} : MRet (M S) := fun A => @ret S A.
#[global] Instance M_bind {S} : MBind (M S) := fun A B k m => @bind S A B m k.

(** [for x in xs: body x] *)
Fixpoint for_each {S A} (xs : list A) (body : A -> M S unit) : M S unit :=
  match xs with
  | [] => ret tt
  | x :: xs' => bind (body x) (fun _ => for_each xs' body)
  end.

(** ** Binary64 arithmetic and percentages *)

(** The floats of these programs are quotients of two row counts and
    their products with 100: never negative, and when not zero far inside
    the normal range of binary64.  On such values an operation returns the
    number with a 53-bit significand nearest to the exact result, ties
    going to the even significand. *)

(** Nearest integer, ties to even. *)
Definition nearest_even (x : Q) : Z :=
  let f := Qfloor x in
  match Qcompare (x - inject_Z f) (1 # 2) with
  | Lt => f
  | Gt => f + 1
  | Eq => if Z.even f then f else f + 1
  end.

(** The position of the leading bit of a positive rational [x]:
    [2 ^ magnitude x <= x < 2 ^ (magnitude x + 1)]. *)
Definition magnitude (x : Q) : Z :=
  let k := Z.log2 (Qnum x) - Z.log2 (Zpos (Qden x)) in
  if Qle_bool (2 ^ k) x then k else k - 1.

(** Rounding to binary64.  Zero is exact; a negative argument, which no
    count produces, is not rounded but sent to zero. *)
Definition round (x : Q) : Q :=
  if Qle_bool x 0 then 0
  else let e := magnitude x - 52 in
       Qred (inject_Z (nearest_even (x / 2 ^ e)) * 2 ^ e).

(** [a / b] on two integers, and [x * y] on two floats. *)
Definition truediv (a b : Z) : Q := round (inject_Z a / inject_Z b).
Definition fmul (x y : Q) : Q := round (x * y).

(** [(part / total) * 100 if total > 0 else 0] *)
Definition percentage (part total : Z) : Q :=
  if 0 <? total then fmul (truediv part total) 100 else 0.

(** [pct >= threshold] and [pct == threshold] *)
Definition at_least (pct threshold : Q) : bool := Qle_bool threshold pct.
Definition exactly (pct threshold : Q) : bool := Qeq_bool pct threshold.

(** The percentage as a function of the exact quotient. *)
Definition pct (q : Q) : Q := round (round q * 100).

(** The same percentage on the machine's binary64 numbers, read back as a
    rational; defined for counts below 2^53, which convert exactly. *)
Definition denoted (f : PrimFloat.float) : option Q :=
  match FloatOps.Prim2SF f with
  | SpecFloat.S754_zero _ => Some 0%Q
  | SpecFloat.S754_finite false m e => Some (Qred (inject_Z (Zpos m) * 2 ^ e))
  | _ => None
  end.

Definition machine_percentage (part total : Z) : option Q :=
  denoted (PrimFloat.mul
             (PrimFloat.div (PrimFloat.of_uint63 (Uint63.of_Z part))
                            (PrimFloat.of_uint63 (Uint63.of_Z total)))
             (PrimFloat.of_uint63 (Uint63.of_Z 100))).

(** Counts on which the two are compared: plain ones, ones whose quotient
    sits next to a threshold, and ones at the row limit. *)
Definition sampled_counts : list (Z * Z) :=
  [ (0, 100); (1, 1); (1, 3); (2, 3); (57, 100); (29, 100);
    (94, 100); (95, 100); (19, 20); (97, 100); (98, 100); (49, 50);
    (979, 1000); (9499, 10000); (9801, 10000); (999999, 1000000);
    (133700613937561, 140737488355328); (133700613937562, 140737488355328);
    (137922738588221, 140737488355328); (137922738588222, 140737488355328);
    (140737488355327, 140737488355328); (140737488355328, 140737488355328) ].

(** The number of rows up to which binary64 decides every threshold of
    the checks as exact arithmetic does. *)
Definition row_limit : Z := 2 ^ 47.

(** * data_quality.py *)

Module data_quality.

Local Open Scope string_scope.
Local Open Scope Z_scope.

Inductive QualityCheckType :=
| COMPLETENESS
| ACCURACY
| CONSISTENCY
| VALIDITY
| TIMELINESS.

(** [QualityCheckType.value] *)
Definition value_of (k : QualityCheckType) : string :=
  match k with
  | COMPLETENESS => "completeness"
  | ACCURACY => "accuracy"
  | CONSISTENCY => "consistency"
  | VALIDITY => "validity"
  | TIMELINESS => "timeliness"
  end.

(** The values of a [validation_rules] mapping: a number (the registry's
    [min] and [max]) or a list of text values ([allowed_values]). *)
Inductive rule_value :=
| RNum (n : Z)
| RList (vs : list string).

(** [validation_rules : Dict[str, Any]], in insertion order. *)
Abbreviation validation_rules := (list (string * rule_value)).

(** The values stored under [details]. *)
Inductive detail :=
| DInt (n : Z)
| DPct (q : Q)
| DText (s : string)
| DRules (rules : validation_rules).

Record QualityCheckResult := {
  check_type : QualityCheckType;
  table_name : string;
  column_name : string;
  check_date : Z;
  passed : bool;
  details : list (string * detail);
  error_count : Z;
  total_count : Z
}.

(** ** The record store reached through psycopg2 *)

Inductive sqltype := TInteger | TText | TTimestamp.

Inductive value :=
| VInt (n : Z)
| VText (s : string)
| VTimestamp (t : Z).

#[global] Instance value_eq_dec : EqDecision value.
Proof. solve_decision. Defined.

#[global] Instance sqltype_eq_dec : EqDecision sqltype.
Proof. solve_decision. Defined.

(** A row maps column names to values; a column of the table that the row
    does not map is NULL in that row. *)
Record table := {
  columns : gmap string sqltype;
  rows : list (gmap string value)
}.

Record database := {
  accepting : bool;                 (* does [psycopg2.connect] succeed *)
  relations : gmap string table;    (* schema-qualified name to table *)
  date_in : string -> bool          (* the server's text-to-date input *)
}.

(** The text spliced between [CASE WHEN] and [THEN]. *)
Inductive condition :=
| Ge (col : string) (v : Z)              (* {col} >= {v} *)
| Le (col : string) (v : Z)              (* {col} <= {v} *)
| IsIn (col : string) (vs : list string) (* {col} IN ('v1', 'v2') *)
| NotSql                                 (* {col} >= ['a', 'b']: no SQL expression *)
| MatchesNumeric (col : string)          (* {col} ~ '^[0-9]+\.?[0-9]*$' *)
| CastDateNotNull (col : string)         (* {col}::date IS NOT NULL *)
| Recent (col : string) (hours : Z).     (* {col} >= NOW() - INTERVAL '{hours} hours' *)

(** The statements the checker executes. *)
Inductive statement :=
| SelectCountNonNull (tbl col : string)
    (* SELECT COUNT( * ), COUNT({col}) FROM {tbl} *)
| SelectCountWhen (tbl : string) (conds : list condition)
    (* SELECT COUNT( * ), COUNT(CASE WHEN {c1 AND c2 ..} THEN 1 END) FROM {tbl} *)
| SelectOrphans (tbl col rtbl rcol : string)
    (* SELECT COUNT( * ) FROM {tbl} t LEFT JOIN {rtbl} r ON t.{col} = r.{rcol}
       WHERE r.{rcol} IS NULL *)
| SelectCount (tbl : string).
    (* SELECT COUNT( * ) FROM {tbl} *)

(** *** Static checks: what the server rejects before reading any row *)

Definition has_type (t : table) (col : string) (ty : sqltype) : bool :=
  bool_decide (columns t !! col = Some ty).

Definition well_formed (t : table) (c : condition) : bool :=
  match c with
  | Ge col _ | Le col _ => has_type t col TInteger
  | IsIn col vs => negb (bool_decide (vs = [])) && has_type t col TText
  | NotSql => false
  | MatchesNumeric col => has_type t col TText
  | CastDateNotNull col => has_type t col TText || has_type t col TTimestamp
  | Recent col _ => has_type t col TTimestamp
  end.

(** *** Three-valued evaluation on a row; [None] is SQL's unknown *)

Definition is_digit (c : Ascii.ascii) : bool :=
  (Nat.leb 48 (Ascii.nat_of_ascii c) && Nat.leb (Ascii.nat_of_ascii c) 57)%bool.

Fixpoint drop_digits (s : string) : string :=
  match s with
  | String c s' => if is_digit c then drop_digits s' else s
  | EmptyString => s
  end.

(** The whole of [s] matches [^[0-9]+\.?[0-9]*$]. *)
Definition matches_numeric (s : string) : bool :=
  match s with
  | String c s' =>
      is_digit c &&
      match drop_digits s' with
      | EmptyString => true
      | String "."%char r =>
          match drop_digits r with EmptyString => true | _ => false end
      | _ => false
      end
  | EmptyString => false
  end.

Definition holds (db : database) (now : Z) (r : gmap string value)
    (c : condition) : result (option bool) :=
  match c with
  | Ge col v =>
      Ok (match r !! col with Some (VInt n) => Some (v <=? n) | _ => None end)
  | Le col v =>
      Ok (match r !! col with Some (VInt n) => Some (n <=? v) | _ => None end)
  | IsIn col vs =>
      Ok (match r !! col with
          | Some (VText s) => Some (bool_decide (s ∈ vs))
          | _ => None
          end)
  | NotSql => Raise DatabaseError
  | MatchesNumeric col =>
      Ok (match r !! col with
          | Some (VText s) => Some (matches_numeric s)
          | _ => None
          end)
  | CastDateNotNull col =>
      match r !! col with
      | None => Ok (Some false)
      | Some (VText s) => if date_in db s then Ok (Some true) else Raise DatabaseError
      | Some _ => Ok (Some true)
      end
  | Recent col hours =>
      Ok (match r !! col with
          | Some (VTimestamp t) => Some (now - hours * 3600 <=? t)
          | _ => None
          end)
  end.

(** SQL's [AND] on three truth values. *)
Definition and3 (a b : option bool) : option bool :=
  match a, b with
  | Some false, _ | _, Some false => Some false
  | Some true, Some true => Some true
  | _, _ => None
  end.

(** [c1 AND c2 AND ..] on a row, for a non-empty list of conditions. *)
Fixpoint conjunction (db : database) (now : Z) (r : gmap string value)
    (conds : list condition) : result (option bool) :=
  match conds with
  | [] => Ok (Some true)
  | c :: conds' =>
      match holds db now r c with
      | Raise e => Raise e
      | Ok a =>
          match conjunction db now r conds' with
          | Raise e => Raise e
          | Ok b => Ok (and3 a b)
          end
      end
  end.

(** [COUNT(CASE WHEN .. THEN 1 END)]: the rows on which the condition is
    true; unknown and false both fall to the absent [ELSE], which is NULL
    and is not counted. *)
Fixpoint count_when (db : database) (now : Z) (rs : list (gmap string value))
    (conds : list condition) : result Z :=
  match rs with
  | [] => Ok 0
  | r :: rs' =>
      match conjunction db now r conds with
      | Raise e => Raise e
      | Ok b =>
          match count_when db now rs' conds with
          | Raise e => Raise e
          | Ok n => Ok (if bool_decide (b = Some true) then 1 + n else n)
          end
      end
  end.

(** [COUNT({col})] counts the rows where the column is not NULL. *)
Definition count_non_null (rs : list (gmap string value)) (col : string) : Z :=
  Z.of_nat (length (filter (fun r => is_Some (r !! col)) rs)).

(** [a = b] in SQL: unknown as soon as one side is NULL. *)
Definition sql_eq (a b : option value) : option bool :=
  match a, b with
  | Some x, Some y => Some (bool_decide (x = y))
  | _, _ => None
  end.

(** [ts LEFT JOIN rs ON on]: every left row paired with each right row on
    which [on] is true, or once with an all-NULL right side when there is
    none. *)
Definition left_join (ts rs : list (gmap string value))
    (on : gmap string value -> gmap string value -> option bool)
    : list (gmap string value * option (gmap string value)) :=
  flat_map (fun t =>
    match filter (fun r => on t r = Some true) rs with
    | [] => [(t, None)]
    | matches => map (fun r => (t, Some r)) matches
    end) ts.

(** [r.{rcol} IS NULL] on a joined row. *)
Definition right_is_null (rcol : string)
    (j : gmap string value * option (gmap string value)) : bool :=
  match j.2 with
  | None => true
  | Some r => bool_decide (r !! rcol = None)
  end.

Definition orphaned (ts rs : list (gmap string value)) (col rcol : string) : Z :=
  Z.of_nat (length (filter (fun j => right_is_null rcol j = true)
                      (left_join ts rs (fun t r => sql_eq (t !! col) (r !! rcol))))).

(** [cursor.execute(stmt)] followed by [cursor.fetchone()]. *)
Definition execute (db : database) (now : Z) (stmt : statement) : result (list Z) :=
  match stmt with
  | SelectCountNonNull tbl col =>
      match relations db !! tbl with
      | Some t =>
          if bool_decide (is_Some (columns t !! col))
          then Ok [Z.of_nat (length (rows t)); count_non_null (rows t) col]
          else Raise DatabaseError
      | None => Raise DatabaseError
      end
  | SelectCountWhen tbl conds =>
      match relations db !! tbl with
      | Some t =>
          if negb (bool_decide (conds = [])) && forallb (well_formed t) conds
          then match count_when db now (rows t) conds with
               | Ok n => Ok [Z.of_nat (length (rows t)); n]
               | Raise e => Raise e
               end
          else Raise DatabaseError
      | None => Raise DatabaseError
      end
  | SelectOrphans tbl col rtbl rcol =>
      match relations db !! tbl, relations db !! rtbl with
      | Some t, Some r =>
          match columns t !! col, columns r !! rcol with
          | Some ty, Some ty' =>
              if bool_decide (ty = ty')
              then Ok [orphaned (rows t) (rows r) col rcol]
              else Raise DatabaseError
          | _, _ => Raise DatabaseError
          end
      | _, _ => Raise DatabaseError
      end
  | SelectCount tbl =>
      match relations db !! tbl with
      | Some t => Ok [Z.of_nat (length (rows t))]
      | None => Raise DatabaseError
      end
  end.

(** [a, b = cursor.fetchone()] *)
Definition unpack2 (r : list Z) : result (Z * Z) :=
  match r with
  | [a; b] => Ok (a, b)
  | _ => Raise ValueError
  end.

(** [cursor.fetchone()[0]] *)
Definition first_column (r : list Z) : result Z :=
  match r with
  | a :: _ => Ok a
  | [] => Raise TypeError
  end.

(** ** Logging, the checker's state and the connection *)

Inductive message :=
| Connected                       (* Successfully connected to database *)
| ConnectError (e : exn)          (* Error connecting to database: {e} *)
| Checked (k : QualityCheckType) (tbl col : string) (pct : Q)
                                  (* {Kind} check for {tbl}.{col}: {pct:.2f}% *)
| CheckError (k : QualityCheckType) (e : exn)
                                  (* Error in {kind} check: {e} *)
| Starting                        (* Starting data quality checks *)
| CheckFailed (k : QualityCheckType) (tbl col : string)
                                  (* Quality check failed: {kind} for {tbl}.{col} *)
| ErrorRunning (func : string) (e : exn)
                                  (* Error running check {func}: {e} *)
| ReportGenerated                 (* Quality report generated successfully *)
| Completed                       (* Data quality checks completed *)
| ReportError (e : exn)           (* Error generating quality report: {e} *)
| ErrorInChecks (e : exn).        (* Error in quality checks: {e} *)

Inductive log_record :=
| INFO (m : message)
| WARNING (m : message)
| ERROR (m : message).

(** One entry of [report['check_details']]. *)
Record check_detail := {
  d_check_type : string;
  d_table_name : string;
  d_column_name : string;
  d_passed : bool;
  d_error_rate : Q;
  d_details : list (string * detail)
}.

Record QualityReport := {
  timestamp : Z;
  total_checks : Z;
  passed_checks : Z;
  failed_checks : Z;
  check_details : list check_detail
}.

(** What a run reads and writes outside its arguments: the module's
    logger, [self.results] of the checker, and [quality_report.json]. *)
Record state := {
  logged : list log_record;
  results : list QualityCheckResult;
  quality_report_json : option QualityReport
}.

(** [DataQualityChecker(db_connection)]: [self.results = []] *)
Definition init : state :=
  {| logged := []; results := []; quality_report_json := None |}.

Definition log (r : log_record) : M state unit :=
  modify (fun s => {| logged := logged s ++ [r];
                      results := results s;
                      quality_report_json := quality_report_json s |}).

(** [self.results.append(result)] *)
Definition append_result (r : QualityCheckResult) : M state unit :=
  modify (fun s => {| logged := logged s;
                      results := results s ++ [r];
                      quality_report_json := quality_report_json s |}).

(** [json.dump(report, open('quality_report.json', 'w'))] *)
Definition dump (r : QualityReport) : M state unit :=
  modify (fun s => {| logged := logged s;
                      results := results s;
                      quality_report_json := Some r |}).

(** [DatabaseConnection.connect] *)
Definition connect (db : database) : M state unit :=
  if accepting db
  then log (INFO Connected)
  else (log (ERROR (ConnectError OperationalError));; raise OperationalError).

(** The frame every check shares:
<<
    try:
        conn = self.db.connect(); cursor = conn.cursor()
        body
    except Exception as e:
        logger.error(...); raise
    finally:
        cursor.close(); conn.close()
>>
    When [connect] raises, [cursor] is unbound and the [finally] clause
    raises [UnboundLocalError] in place of the original exception. *)
Definition with_cursor {A} (db : database) (k : QualityCheckType)
    (body : M state A) : M state A :=
  let handler e := (log (ERROR (CheckError k e));; raise e) in
  fun s =>
    match connect db s with
    | (Ok _, s1) => try_finally (try_except body handler) (ret tt) s1
    | (Raise e, s1) =>
        try_finally (try_except (raise e) handler) (raise UnboundLocalError) s1
    end.

Definition query2 (db : database) (now : Z) (stmt : statement) : M state (Z * Z) :=
  lift (match execute db now stmt with
        | Ok r => unpack2 r
        | Raise e => Raise e
        end).

Definition query1 (db : database) (now : Z) (stmt : statement) : M state Z :=
  lift (match execute db now stmt with
        | Ok r => first_column r
        | Raise e => Raise e
        end).

(** ** The five checks *)

Definition check_completeness (db : database) (now : Z)
    (table_name column_name : string) : M state QualityCheckResult :=
  with_cursor db COMPLETENESS (
    counts ← query2 db now (SelectCountNonNull table_name column_name);
    let '(total_count, non_null_count) := counts in
    let completeness := percentage non_null_count total_count in
    let passed := at_least completeness 95 in
    let result :=
      {| check_type := COMPLETENESS;
         table_name := table_name;
         column_name := column_name;
         check_date := now;
         passed := passed;
         details := [("completeness_percentage", DPct completeness);
                     ("null_count", DInt (total_count - non_null_count));
                     ("non_null_count", DInt non_null_count)];
         error_count := total_count - non_null_count;
         total_count := total_count |} in
    log (INFO (Checked COMPLETENESS table_name column_name completeness));;
    mret result).

(** One turn of [for rule, value in validation_rules.items()]: the
    condition appended for a supported key, nothing for any other key.
    Iterating over a number for [allowed_values] raises [TypeError];
    a list spliced after [>=] or [<=], and an empty [IN ()], are text the
    server will not parse. *)
Definition condition_of (column_name : string) (rule : string) (v : rule_value)
    : result (list condition) :=
  if bool_decide (rule = "min") then
    Ok [match v with RNum n => Ge column_name n | RList _ => NotSql end]
  else if bool_decide (rule = "max") then
    Ok [match v with RNum n => Le column_name n | RList _ => NotSql end]
  else if bool_decide (rule = "allowed_values") then
    match v with
    | RList vs => Ok [IsIn column_name vs]
    | RNum _ => Raise TypeError
    end
  else Ok [].

Fixpoint validation_conditions (column_name : string) (rules : validation_rules)
    : result (list condition) :=
  match rules with
  | [] => Ok []
  | (rule, v) :: rules' =>
      match condition_of column_name rule v with
      | Raise e => Raise e
      | Ok c =>
          match validation_conditions column_name rules' with
          | Raise e => Raise e
          | Ok cs => Ok (c ++ cs)%list
          end
      end
  end.

Definition check_accuracy (db : database) (now : Z)
    (table_name column_name : string) (rules : validation_rules)
    : M state QualityCheckResult :=
  with_cursor db ACCURACY (
    conds ← lift (validation_conditions column_name rules);
    counts ← query2 db now (SelectCountWhen table_name conds);
    let '(total_count, valid_count) := counts in
    let accuracy := percentage valid_count total_count in
    let passed := at_least accuracy 98 in
    let result :=
      {| check_type := ACCURACY;
         table_name := table_name;
         column_name := column_name;
         check_date := now;
         passed := passed;
         details := [("accuracy_percentage", DPct accuracy);
                     ("invalid_count", DInt (total_count - valid_count));
                     ("valid_count", DInt valid_count);
                     ("validation_rules", DRules rules)];
         error_count := total_count - valid_count;
         total_count := total_count |} in
    log (INFO (Checked ACCURACY table_name column_name accuracy));;
    mret result).

Definition check_consistency (db : database) (now : Z)
    (table_name column_name reference_table reference_column : string)
    : M state QualityCheckResult :=
  with_cursor db CONSISTENCY (
    orphaned_count ← query1 db now
      (SelectOrphans table_name column_name reference_table reference_column);
    total_count ← query1 db now (SelectCount table_name);
    let consistency := percentage (total_count - orphaned_count) total_count in
    let passed := exactly consistency 100 in
    let result :=
      {| check_type := CONSISTENCY;
         table_name := table_name;
         column_name := column_name;
         check_date := now;
         passed := passed;
         details := [("consistency_percentage", DPct consistency);
                     ("orphaned_count", DInt orphaned_count);
                     ("reference_table", DText reference_table);
                     ("reference_column", DText reference_column)];
         error_count := orphaned_count;
         total_count := total_count |} in
    log (INFO (Checked CONSISTENCY table_name column_name consistency));;
    mret result).

Definition check_validity (db : database) (now : Z)
    (table_name column_name data_type : string) : M state QualityCheckResult :=
  with_cursor db VALIDITY (
    validation_query ←
      (if bool_decide (data_type = "numeric") then
         mret (SelectCountWhen table_name [MatchesNumeric column_name])
       else if bool_decide (data_type = "date") then
         mret (SelectCountWhen table_name [CastDateNotNull column_name])
       else raise ValueError);
    counts ← query2 db now validation_query;
    let '(total_count, valid_count) := counts in
    let validity := percentage valid_count total_count in
    let passed := exactly validity 100 in
    let result :=
      {| check_type := VALIDITY;
         table_name := table_name;
         column_name := column_name;
         check_date := now;
         passed := passed;
         details := [("validity_percentage", DPct validity);
                     ("invalid_count", DInt (total_count - valid_count));
                     ("valid_count", DInt valid_count);
                     ("data_type", DText data_type)];
         error_count := total_count - valid_count;
         total_count := total_count |} in
    log (INFO (Checked VALIDITY table_name column_name validity));;
    mret result).

Definition check_timeliness (db : database) (now : Z)
    (table_name date_column : string) (max_age_hours : Z)
    : M state QualityCheckResult :=
  with_cursor db TIMELINESS (
    counts ← query2 db now
      (SelectCountWhen table_name [Recent date_column max_age_hours]);
    let '(total_count, recent_count) := counts in
    let timeliness := percentage recent_count total_count in
    let passed := at_least timeliness 95 in
    let result :=
      {| check_type := TIMELINESS;
         table_name := table_name;
         column_name := date_column;
         check_date := now;
         passed := passed;
         details := [("timeliness_percentage", DPct timeliness);
                     ("outdated_count", DInt (total_count - recent_count));
                     ("recent_count", DInt recent_count);
                     ("max_age_hours", DInt max_age_hours)];
         error_count := total_count - recent_count;
         total_count := total_count |} in
    log (INFO (Checked TIMELINESS table_name date_column timeliness));;
    mret result).

(** ** The registry and the runner *)

(** One tuple of the list [checks]: the bound method and its arguments. *)
Inductive check :=
| Completeness (table_name column_name : string)
| Accuracy (table_name column_name : string) (rules : validation_rules)
| Consistency (table_name column_name reference_table reference_column : string)
| Validity (table_name column_name data_type : string)
| Timeliness (table_name date_column : string) (max_age_hours : Z).

(** [check_func] applied to its arguments *)
Definition call (db : database) (now : Z) (c : check) : M state QualityCheckResult :=
  match c with
  | Completeness t c => check_completeness db now t c
  | Accuracy t c rules => check_accuracy db now t c rules
  | Consistency t c rt rc => check_consistency db now t c rt rc
  | Validity t c ty => check_validity db now t c ty
  | Timeliness t c h => check_timeliness db now t c h
  end.

(** [check_func.__name__] *)
Definition name_of (c : check) : string :=
  match c with
  | Completeness _ _ => "check_completeness"
  | Accuracy _ _ _ => "check_accuracy"
  | Consistency _ _ _ _ => "check_consistency"
  | Validity _ _ _ => "check_validity"
  | Timeliness _ _ _ => "check_timeliness"
  end.

Definition kind_of (c : check) : QualityCheckType :=
  match c with
  | Completeness _ _ => COMPLETENESS
  | Accuracy _ _ _ => ACCURACY
  | Consistency _ _ _ _ => CONSISTENCY
  | Validity _ _ _ => VALIDITY
  | Timeliness _ _ _ => TIMELINESS
  end.

(** The list [checks] of [run_quality_checks]. *)
Definition checks : list check :=
  [ Completeness "core.customer" "email";
    Completeness "core.customer" "phone";
    Completeness "core.transaction" "amount";
    Accuracy "core.customer" "satisfaction_score" [("min", RNum 0); ("max", RNum 10)];
    Accuracy "core.customer" "nps_score" [("min", RNum 0); ("max", RNum 10)];
    Accuracy "core.transaction" "status"
      [("allowed_values", RList ["COMPLETED"; "PENDING"; "FAILED"])];
    Consistency "core.transaction" "customer_id" "core.customer" "customer_id";
    Consistency "core.transaction" "branch_id" "core.branch" "branch_id";
    Consistency "core.transaction" "product_id" "core.product" "product_id";
    Validity "core.transaction" "amount" "numeric";
    Validity "core.customer" "date_of_birth" "date";
    Validity "core.transaction" "transaction_date" "date";
    Timeliness "core.transaction" "transaction_date" 24;
    Timeliness "core.customer" "last_interaction_date" (30 * 24) ].

Definition detail_of (r : QualityCheckResult) : check_detail :=
  {| d_check_type := value_of (check_type r);
     d_table_name := table_name r;
     d_column_name := column_name r;
     d_passed := passed r;
     d_error_rate := percentage (error_count r) (total_count r);
     d_details := details r |}.

(** The dictionary [report] built from [self.results]. *)
Definition report_of (now : Z) (rs : list QualityCheckResult) : QualityReport :=
  {| timestamp := now;
     total_checks := Z.of_nat (length rs);
     passed_checks := Z.of_nat (length (filter (fun r => passed r = true) rs));
     failed_checks := Z.of_nat (length (filter (fun r => passed r = false) rs));
     check_details := map detail_of rs |}.

Definition generate_quality_report (now : Z) : M state unit :=
  try_except
    ((fun s => dump (report_of now (results s)) s);;
     log (INFO ReportGenerated))
    (fun e => log (ERROR (ReportError e));; raise e).

(** The loop body of [run_quality_checks]: a result is appended only when
    the check returned; when it raised, the handler logs and goes on. *)
Definition run_one (db : database) (now : Z) (c : check) : M state unit :=
  try_except
    (result ← call db now c;
     append_result result;;
     if passed result then mret tt
     else log (WARNING (CheckFailed (check_type result) (table_name result)
                                    (column_name result))))
    (fun e => log (ERROR (ErrorRunning (name_of c) e))).

(** [run_quality_checks] over a given registry. *)
Definition run_registry (registry : list check) (db : database) (now : Z)
    : M state unit :=
  try_except
    (log (INFO Starting);;
     for_each registry (run_one db now);;
     generate_quality_report now;;
     log (INFO Completed))
    (fun e => log (ERROR (ErrorInChecks e));; raise e).

Definition run_quality_checks : database -> Z -> M state unit :=
  run_registry checks.

(** ** Reading a result *)

(** The comparison each check applies to its percentage. *)
Definition verdict (k : QualityCheckType) (pct : Q) : bool :=
  match k with
  | COMPLETENESS | TIMELINESS => at_least pct 95
  | ACCURACY => at_least pct 98
  | CONSISTENCY | VALIDITY => exactly pct 100
  end.

(** The percentage a result carries as the first entry of [details]. *)
Definition headline (r : QualityCheckResult) : option Q :=
  match details r with
  | (_, DPct q) :: _ => Some q
  | _ => None
  end.

(** The specification's wording of the decision, kept apart from the
    code: the ratio of rows that are not errors, 0 on an empty table,
    measured against the threshold of the kind, which is a minimum for
    completeness, accuracy and timeliness and an exact value for
    consistency and validity. *)
Definition ratio (error_count total_count : Z) : Q :=
  if total_count =? 0 then 0
  else inject_Z (total_count - error_count) / inject_Z total_count.

Definition threshold (k : QualityCheckType) : Q :=
  match k with
  | COMPLETENESS | TIMELINESS => 95 # 100
  | ACCURACY => 98 # 100
  | CONSISTENCY | VALIDITY => 1
  end.

Definition meets_threshold (k : QualityCheckType) (error_count total_count : Z)
    : bool :=
  match k with
  | CONSISTENCY | VALIDITY => Qeq_bool (ratio error_count total_count) (threshold k)
  | _ => Qle_bool (threshold k) (ratio error_count total_count)
  end.

(** The specification's wording of an orphan: the key is present and no
    reference row carries it. *)
Definition dangling (rs : list (gmap string value)) (col rcol : string)
    (t : gmap string value) : bool :=
  match t !! col with
  | None => false
  | Some v => bool_decide (Forall (fun r => r !! rcol ≠ Some v) rs)
  end.

(** The reference rows the join pairs with [t]. *)
Abbreviation matching t col rcol :=
  (fun r : gmap string value => sql_eq (t !! col) (r !! rcol) = Some true).

(** ** What a run leaves behind *)

(** What a check returns or raises from a fresh state. *)
Definition outcome (db : database) (now : Z) (c : check) : result QualityCheckResult :=
  (call db now c init).1.

(** The results of the checks of a registry that return, in order. *)
Definition returned (db : database) (now : Z) (registry : list check)
    : list QualityCheckResult :=
  flat_map (fun c => match outcome db now c with Ok r => [r] | Raise _ => [] end)
    registry.

(** [s] with further records in the log. *)
Definition extend (s : state) (l : list log_record) : state :=
  {| logged := (logged s ++ l)%list;
     results := results s;
     quality_report_json := quality_report_json s |}.

(** A computation that touches nothing but the log, and whose outcome
    does not depend on the state it starts from. *)
Definition log_only {A} (m : M state A) : Prop :=
  forall s, m s = ((m init).1, extend s (logged (m init).2)).

(** The rule keys [check_accuracy] has a branch for. *)
Definition supported (rule : string) : bool :=
  bool_decide (rule ∈ ["min"; "max"; "allowed_values"]).

(** ** A small warehouse *)

Definition customer_table : table :=
  {| columns := list_to_map
       [("customer_id", TInteger); ("email", TText); ("phone", TText);
        ("satisfaction_score", TInteger); ("nps_score", TInteger);
        ("date_of_birth", TTimestamp); ("last_interaction_date", TTimestamp)];
     rows :=
       [ list_to_map
           [("customer_id", VInt 1); ("email", VText "a@example.org");
            ("satisfaction_score", VInt 7); ("nps_score", VInt 11);
            ("date_of_birth", VTimestamp 0);
            ("last_interaction_date", VTimestamp 1000)] ] |}.

(** Two transactions; the second has no customer. *)
Definition transaction_table : table :=
  {| columns := list_to_map
       [("transaction_id", TInteger); ("customer_id", TInteger);
        ("branch_id", TInteger); ("product_id", TInteger);
        ("amount", TInteger); ("status", TText);
        ("transaction_date", TTimestamp)];
     rows :=
       [ list_to_map
           [("transaction_id", VInt 10); ("customer_id", VInt 1);
            ("amount", VInt 5); ("status", VText "COMPLETED");
            ("transaction_date", VTimestamp 900)];
         list_to_map
           [("transaction_id", VInt 11); ("amount", VInt 5);
            ("status", VText "COMPLETED");
            ("transaction_date", VTimestamp 900)] ] |}.

(** There is no [core.branch] and no [core.product]. *)
Definition example_db : database :=
  {| accepting := true;
     relations := list_to_map
       [("core.customer", customer_table);
        ("core.transaction", transaction_table)];
     date_in := fun _ => true |}.

Definition sample_run : state :=
  (run_quality_checks example_db 1000 init).2.

Definition sample_rerun : state :=
  (run_quality_checks example_db 1000 sample_run).2.

(** Two tables without rows. *)
Definition vacant_table : table :=
  {| columns := list_to_map
       [("id", TInteger); ("ref", TInteger); ("label", TText); ("seen", TTimestamp)];
     rows := [] |}.

Definition vacant_db : database :=
  {| accepting := true;
     relations := list_to_map [("t", vacant_table); ("r", vacant_table)];
     date_in := fun _ => true |}.

Definition vacant_checks : list check :=
  [ Completeness "t" "label";
    Accuracy "t" "id" [("min", RNum 0)];
    Consistency "t" "ref" "r" "id";
    Validity "t" "label" "numeric";
    Timeliness "t" "seen" 24 ].

(** The scores 5, 11, -1 and 7. *)
Definition scores_table : table :=
  {| columns := list_to_map [("score", TInteger)];
     rows := [ list_to_map [("score", VInt 5)];
               list_to_map [("score", VInt 11)];
               list_to_map [("score", VInt (-1))];
               list_to_map [("score", VInt 7)] ] |}.

Definition scores_db : database :=
  {| accepting := true;
     relations := list_to_map [("scores", scores_table)];
     date_in := fun _ => true |}.

(** ** Reading the counts against the rows *)

(** The column is NULL in the row. *)
Definition is_null (col : string) (row : gmap string value) : bool :=
  bool_decide (row !! col = None).

(** The row holds an integer between [lo] and [hi], both included. *)
Definition in_range (col : string) (lo hi : Z) (row : gmap string value) : bool :=
  match row !! col with
  | Some (VInt n) => (lo <=? n) && (n <=? hi)
  | _ => false
  end.

(** The row holds a timestamp no older than [hours] hours at [now]. *)
Definition is_recent (col : string) (now hours : Z) (row : gmap string value) : bool :=
  match row !! col with
  | Some (VTimestamp t) => now - hours * 3600 <=? t
  | _ => false
  end.

(** The row holds a text that is a run of digits, optionally followed by a
    point and further digits. *)
Definition is_numeric (col : string) (row : gmap string value) : bool :=
  match row !! col with
  | Some (VText s) => matches_numeric s
  | _ => false
  end.

(** The server can read the row's value as a date. *)
Definition castable (db : database) (col : string) (row : gmap string value) : bool :=
  match row !! col with
  | Some (VText s) => date_in db s
  | _ => true
  end.

(** The row's key is present and some reference row carries it. *)
Definition matched (rs : list (gmap string value)) (col rcol : string)
    (row : gmap string value) : bool :=
  match row !! col with
  | None => false
  | Some v => bool_decide (Exists (fun r => r !! rcol = Some v) rs)
  end.

Fixpoint all_digits (s : string) : bool :=
  match s with
  | EmptyString => true
  | String c s' => is_digit c && all_digits s'
  end.

(** The small warehouse behind a server that refuses connections. *)
Definition unreachable_db : database :=
  {| accepting := false;
     relations := relations example_db;
     date_in := fun _ => true |}.

End data_quality.

(** * etl_processes.py *)

Module etl_processes.

Local Open Scope string_scope.
Local Open Scope Z_scope.

(** ** Rows of the two DataFrames *)

Module Transaction.

(** A row as [extract_transactions] builds it. *)
Record t := {
  transaction_id : Z;
  transaction_date : Z;        (* days since 1970-01-01 *)
  transaction_time : Z;        (* seconds since midnight *)
  branch_id : Z;
  customer_id : Z;
  product_id : Z;
  amount : Q;
  transaction_type_id : Z;
  employee_id : Z;
  channel_id : Z;
  status : string
}.

(** A row after [transform_transactions] added its two columns. *)
Record transformed := {
  raw : t;
  is_weekend : bool;
  is_holiday : bool
}.

(** The columns [ON CONFLICT .. DO UPDATE SET] assigns from [EXCLUDED],
    and the remaining ones. *)
Definition mutable (r : transformed) : string := status (raw r).

Definition immutable (r : transformed) :=
  (transaction_id (raw r), transaction_date (raw r), transaction_time (raw r),
   branch_id (raw r), customer_id (raw r), product_id (raw r), amount (raw r),
   transaction_type_id (raw r), employee_id (raw r), channel_id (raw r),
   is_weekend r, is_holiday r).

(** [status = EXCLUDED.status] applied to the stored row [old]. *)
Definition updated (old excluded : transformed) : transformed :=
  {| raw := {| transaction_id := transaction_id (raw old);
               transaction_date := transaction_date (raw old);
               transaction_time := transaction_time (raw old);
               branch_id := branch_id (raw old);
               customer_id := customer_id (raw old);
               product_id := product_id (raw old);
               amount := amount (raw old);
               transaction_type_id := transaction_type_id (raw old);
               employee_id := employee_id (raw old);
               channel_id := channel_id (raw old);
               status := status (raw excluded) |};
     is_weekend := is_weekend old;
     is_holiday := is_holiday old |}.

Definition key (r : transformed) : Z := transaction_id (raw r).

End Transaction.

Module Customer.

(** A row as [extract_customers] builds it. *)
Record t := {
  customer_id : Z;
  first_name : string;
  last_name : string;
  date_of_birth : Z;           (* days since 1970-01-01 *)
  address : string;
  city : string;
  state : string;
  zip_code : string;
  email : string;
  phone : string;
  customer_segment_id : Z;
  acquisition_date : Z;        (* days since 1970-01-01 *)
  last_interaction_date : Z;   (* seconds since 1970-01-01 00:00 *)
  satisfaction_score : Z;
  nps_score : Z;
  status : string
}.

(** A row after [transform_customers] added its two columns. *)
Record transformed := {
  raw : t;
  age : Z;
  customer_tenure_days : Z
}.

Definition mutable (r : transformed) :=
  (last_interaction_date (raw r), satisfaction_score (raw r),
   nps_score (raw r), status (raw r)).

Definition immutable (r : transformed) :=
  (customer_id (raw r), first_name (raw r), last_name (raw r),
   date_of_birth (raw r), address (raw r), city (raw r), state (raw r),
   zip_code (raw r), email (raw r), phone (raw r),
   customer_segment_id (raw r), acquisition_date (raw r),
   age r, customer_tenure_days r).

(** The four assignments from [EXCLUDED] applied to the stored row. *)
Definition updated (old excluded : transformed) : transformed :=
  {| raw := {| customer_id := customer_id (raw old);
               first_name := first_name (raw old);
               last_name := last_name (raw old);
               date_of_birth := date_of_birth (raw old);
               address := address (raw old);
               city := city (raw old);
               state := state (raw old);
               zip_code := zip_code (raw old);
               email := email (raw old);
               phone := phone (raw old);
               customer_segment_id := customer_segment_id (raw old);
               acquisition_date := acquisition_date (raw old);
               last_interaction_date := last_interaction_date (raw excluded);
               satisfaction_score := satisfaction_score (raw excluded);
               nps_score := nps_score (raw excluded);
               status := status (raw excluded) |};
     age := age old;
     customer_tenure_days := customer_tenure_days old |}.

Definition key (r : transformed) : Z := customer_id (raw r).

End Customer.

(** ** The staging area *)

(** A stored row: the inserted columns and [last_updated]. *)
Record staged (A : Type) := {
  cols : A;
  last_updated : option Z
}.
Arguments cols {A} _.
Arguments last_updated {A} _.

Record tables := {
  transactions : gmap Z (staged Transaction.transformed);   (* staging.transactions *)
  customers : gmap Z (staged Customer.transformed)          (* staging.customers *)
}.

(** What the programs rely on without defining it: whether the server is
    reachable, which rows the staging tables' constraints reject (given
    what the session sees), and the default of the column [last_updated]
    on insertion at a given [CURRENT_TIMESTAMP]. *)
Record DatabaseConnection := {
  accepting : bool;
  transaction_ok : tables -> Transaction.transformed -> bool;
  customer_ok : tables -> Customer.transformed -> bool;
  last_updated_default : Z -> option Z
}.

(** The upstream feeds behind the two extractors, for a time window. *)
Record Source := {
  transactions_feed : Z -> Z -> result (list Transaction.t);
  customers_feed : result (list Customer.t)
}.

Inductive message :=
| Connected                              (* Successfully connected to database *)
| ConnectError (e : exn)                 (* Error connecting to database: {e} *)
| ExtractedTransactions (n : nat)        (* Extracted {n} transactions *)
| ExtractTransactionsError (e : exn)     (* Error extracting transactions: {e} *)
| ExtractedCustomers (n : nat)           (* Extracted {n} customers *)
| ExtractCustomersError (e : exn)        (* Error extracting customers: {e} *)
| TransformedTransactions (n : nat)      (* Transformed {n} transactions *)
| TransformTransactionsError (e : exn)   (* Error transforming transactions: {e} *)
| TransformedCustomers (n : nat)         (* Transformed {n} customers *)
| TransformCustomersError (e : exn)      (* Error transforming customers: {e} *)
| LoadedTransactions (n : nat)           (* Loaded {n} transactions *)
| LoadTransactionsError (e : exn)        (* Error loading transactions: {e} *)
| LoadedCustomers (n : nat)              (* Loaded {n} customers *)
| LoadCustomersError (e : exn)           (* Error loading customers: {e} *)
| Starting                               (* Starting daily ETL process *)
| Completed                              (* Daily ETL process completed successfully *)
| EtlError (e : exn).                    (* Error in daily ETL process: {e} *)

Inductive log_record :=
| INFO (m : message)
| ERROR (m : message).

(** The logger, the committed contents of the staging area, and the
    uncommitted view of the one open connection, if any. *)
Record world := {
  logged : list log_record;
  committed : tables;
  pending : option tables
}.

Definition log (r : log_record) : M world unit :=
  modify (fun w => {| logged := (logged w ++ [r])%list;
                      committed := committed w;
                      pending := pending w |}).

(** What the open connection sees. *)
Definition view (w : world) : tables :=
  match pending w with Some p => p | None => committed w end.

(** A statement's effect stays in the connection's transaction. *)
Definition write (f : tables -> tables) : M world unit :=
  modify (fun w => {| logged := logged w;
                      committed := committed w;
                      pending := Some (f (view w)) |}).

(** [conn.commit()] *)
Definition commit : M world unit :=
  modify (fun w => {| logged := logged w;
                      committed := view w;
                      pending := None |}).

(** [conn.rollback()], and what [conn.close()] does to an open transaction. *)
Definition rollback : M world unit :=
  modify (fun w => {| logged := logged w;
                      committed := committed w;
                      pending := None |}).

(** [DatabaseConnection.connect]: a new connection has no transaction
    open. *)
Definition connect (db : DatabaseConnection) : M world unit :=
  if accepting db
  then (rollback;; log (INFO Connected))
  else (log (ERROR (ConnectError OperationalError));; raise OperationalError).

(** ** Extract *)

(** The rows come from the feed, which stands for the generator the two
    functions call and for the source system it replaces. *)
Definition extract_transactions (src : Source) (start_date end_date : Z)
    : M world (list Transaction.t) :=
  try_except
    (df ← lift (transactions_feed src start_date end_date);
     log (INFO (ExtractedTransactions (length df)));;
     mret df)
    (fun e => log (ERROR (ExtractTransactionsError e));; raise e).

Definition extract_customers (src : Source) : M world (list Customer.t) :=
  try_except
    (df ← lift (customers_feed src);
     log (INFO (ExtractedCustomers (length df)));;
     mret df)
    (fun e => log (ERROR (ExtractCustomersError e));; raise e).

(** ** Transform *)

(** [.dt.dayofweek] of a date: Monday is 0; 1970-01-01 was a Thursday. *)
Definition dayofweek (date : Z) : Z := (date + 3) mod 7.

Definition isin {A} `{EqDecision A} (x : A) (xs : list A) : bool :=
  bool_decide (x ∈ xs).

(** The conversions with [pd.to_datetime] are the identity on columns
    that already hold dates and times. *)
Definition transform_transactions (df : list Transaction.t)
    : M world (list Transaction.transformed) :=
  try_except
    (let df := map (fun r =>
                 {| Transaction.raw := r;
                    Transaction.is_weekend := isin (dayofweek (Transaction.transaction_date r)) [5; 6];
                    Transaction.is_holiday := isin (dayofweek (Transaction.transaction_date r)) [5; 6] |})
                 df in
     let df := filter (fun r => Qle_bool 0 (Transaction.amount (Transaction.raw r)) = true) df in
     let df := filter (fun r => isin (Transaction.status (Transaction.raw r))
                                  ["COMPLETED"; "PENDING"; "FAILED"] = true) df in
     log (INFO (TransformedTransactions (length df)));;
     mret df)
    (fun e => log (ERROR (TransformTransactionsError e));; raise e).

(** The attributes pandas offers under [.dt] on a column of time
    differences (here in seconds): [days], [seconds], [microseconds] and
    [nanoseconds]; any other name raises [AttributeError]. *)
Definition timedelta_dt (attr : string) : result (Z -> Z) :=
  if bool_decide (attr = "days") then Ok (fun td => td / 86400)
  else if bool_decide (attr = "seconds") then Ok (fun td => td mod 86400)
  else if bool_decide (attr = "microseconds") then Ok (fun _ => 0)
  else if bool_decide (attr = "nanoseconds") then Ok (fun _ => 0)
  else Raise AttributeError.

(** [Series.between(lo, hi)], both ends included. *)
Definition between (x lo hi : Z) : bool := (lo <=? x) && (x <=? hi).

Definition transform_customers (now : Z) (df : list Customer.t)
    : M world (list Customer.transformed) :=
  try_except
    (years ← lift (timedelta_dt "years");
     days ← lift (timedelta_dt "days");
     let df := map (fun r =>
                 {| Customer.raw := r;
                    Customer.age := years (now - Customer.date_of_birth r * 86400);
                    Customer.customer_tenure_days :=
                      days (now - Customer.acquisition_date r * 86400) |}) df in
     let df := filter (fun r => between (Customer.satisfaction_score (Customer.raw r)) 0 10 = true) df in
     let df := filter (fun r => between (Customer.nps_score (Customer.raw r)) 0 10 = true) df in
     log (INFO (TransformedCustomers (length df)));;
     mret df)
    (fun e => log (ERROR (TransformCustomersError e));; raise e).

(** ** Load *)

(** [INSERT INTO .. VALUES .. ON CONFLICT (key) DO UPDATE SET ..,
    last_updated = CURRENT_TIMESTAMP] on one table: a fresh key stores the
    row with the column default for [last_updated]; a key already present
    keeps the stored row but for the assigned columns. *)
Definition upsert {A} (updated : A -> A -> A) (default : option Z) (now : Z)
    (k : Z) (r : A) (t : gmap Z (staged A)) : gmap Z (staged A) :=
  match t !! k with
  | None => <[k := {| cols := r; last_updated := default |}]> t
  | Some old =>
      <[k := {| cols := updated (cols old) r; last_updated := Some now |}]> t
  end.

Definition upsert_transaction (db : DatabaseConnection) (now : Z)
    (r : Transaction.transformed) (tb : tables) : tables :=
  {| transactions := upsert Transaction.updated (last_updated_default db now) now
                       (Transaction.key r) r (transactions tb);
     customers := customers tb |}.

Definition upsert_customer (db : DatabaseConnection) (now : Z)
    (r : Customer.transformed) (tb : tables) : tables :=
  {| transactions := transactions tb;
     customers := upsert Customer.updated (last_updated_default db now) now
                    (Customer.key r) r (customers tb) |}.

(** [cursor.execute(..)] inside the two loops. *)
Definition execute_transaction (db : DatabaseConnection) (now : Z)
    (r : Transaction.transformed) : M world unit :=
  fun w =>
    if transaction_ok db (view w) r
    then write (upsert_transaction db now r) w
    else (Raise DatabaseError, w).

Definition execute_customer (db : DatabaseConnection) (now : Z)
    (r : Customer.transformed) : M world unit :=
  fun w =>
    if customer_ok db (view w) r
    then write (upsert_customer db now r) w
    else (Raise DatabaseError, w).

(** The frame the two loaders share:
<<
    try:
        conn = self.db.connect(); cursor = conn.cursor()
        for _, row in df.iterrows(): cursor.execute(..)
        conn.commit(); logger.info(..)
    except Exception as e:
        logger.error(..); conn.rollback(); raise
    finally:
        cursor.close(); conn.close()
>>
    When [connect] raises, [conn] is unbound: [conn.rollback()] raises
    [UnboundLocalError] in the handler and [cursor.close()] raises it again
    in the [finally] clause. *)
Definition load {A} (db : DatabaseConnection) (exec : A -> M world unit)
    (loaded : nat -> message) (failed : exn -> message) (df : list A)
    : M world unit :=
  fun w =>
    match connect db w with
    | (Ok _, w1) =>
        try_finally
          (try_except
             (for_each df exec;;
              commit;;
              log (INFO (loaded (length df))))
             (fun e => log (ERROR (failed e));; rollback;; raise e))
          rollback
          w1
    | (Raise e, w1) =>
        try_finally
          (try_except (raise e)
             (fun e => log (ERROR (failed e));; raise UnboundLocalError))
          (raise UnboundLocalError)
          w1
    end.

Definition load_transactions (db : DatabaseConnection) (now : Z)
    (df : list Transaction.transformed) : M world unit :=
  load db (execute_transaction db now) LoadedTransactions LoadTransactionsError df.

Definition load_customers (db : DatabaseConnection) (now : Z)
    (df : list Customer.transformed) : M world unit :=
  load db (execute_customer db now) LoadedCustomers LoadCustomersError df.

(** ** The daily run *)

Definition run_daily_etl (db : DatabaseConnection) (src : Source) (now : Z)
    : M world unit :=
  try_except
    (log (INFO Starting);;
     let start_date := now - 86400 in
     let end_date := now in
     transactions_df ← extract_transactions src start_date end_date;
     transformed_transactions ← transform_transactions transactions_df;
     load_transactions db now transformed_transactions;;
     customers_df ← extract_customers src;
     transformed_customers ← transform_customers now customers_df;
     load_customers db now transformed_customers;;
     log (INFO Completed))
    (fun e => log (ERROR (EtlError e));; raise e).

(** ** What a load leaves behind *)

(** The rows of a batch applied in order to what the connection sees;
    [None] as soon as the server rejects one. *)
Fixpoint apply_batch {A} (ok : tables -> A -> bool) (up : A -> tables -> tables)
    (df : list A) (tb : tables) : option tables :=
  match df with
  | [] => Some tb
  | r :: df' => if ok tb r then apply_batch ok up df' (up r tb) else None
  end.

Definition transaction_batch (db : DatabaseConnection) (now : Z) :=
  apply_batch (transaction_ok db) (upsert_transaction db now).

Definition customer_batch (db : DatabaseConnection) (now : Z) :=
  apply_batch (customer_ok db) (upsert_customer db now).

(** Every row of a batch upserted into one table. *)
Definition upsert_all {A} (updated : A -> A -> A) (key : A -> Z)
    (default : option Z) (now : Z) (df : list A) (t : gmap Z (staged A))
    : gmap Z (staged A) :=
  foldl (fun t r => upsert updated default now (key r) r t) t df.

(** [r] is the first, resp. the last, row of [df] with key [k]. *)
Definition first_with {A} (key : A -> Z) (k : Z) (r : A) (df : list A) : Prop :=
  exists pre post, df = (pre ++ r :: post)%list /\ key r = k /\
                   Forall (fun x => key x ≠ k) pre.

Definition last_with {A} (key : A -> Z) (k : Z) (r : A) (df : list A) : Prop :=
  exists pre post, df = (pre ++ r :: post)%list /\ key r = k /\
                   Forall (fun x => key x ≠ k) post.

(** The two halves of [run_daily_etl]. *)
Definition transaction_pipeline (db : DatabaseConnection) (src : Source) (now : Z)
    : M world unit :=
  transactions_df ← extract_transactions src (now - 86400) now;
  transformed_transactions ← transform_transactions transactions_df;
  load_transactions db now transformed_transactions.

Definition customer_pipeline (db : DatabaseConnection) (src : Source) (now : Z)
    : M world unit :=
  customers_df ← extract_customers src;
  transformed_customers ← transform_customers now customers_df;
  load_customers db now transformed_customers.

(** ** A small feed and two servers *)

Definition empty_world : world :=
  {| logged := [];
     committed := {| transactions := ∅; customers := ∅ |};
     pending := None |}.

Definition sample_transaction : Transaction.t :=
  {| Transaction.transaction_id := 10;
     Transaction.transaction_date := 19000;
     Transaction.transaction_time := 3600;
     Transaction.branch_id := 1;
     Transaction.customer_id := 1;
     Transaction.product_id := 1;
     Transaction.amount := 5;
     Transaction.transaction_type_id := 1;
     Transaction.employee_id := 1;
     Transaction.channel_id := 1;
     Transaction.status := "PENDING" |}.

Definition sample_customer : Customer.t :=
  {| Customer.customer_id := 1;
     Customer.first_name := "Ada";
     Customer.last_name := "Byron";
     Customer.date_of_birth := 0;
     Customer.address := "1 Main Street";
     Customer.city := "Turin";
     Customer.state := "TO";
     Customer.zip_code := "10100";
     Customer.email := "a@example.org";
     Customer.phone := "555-0100";
     Customer.customer_segment_id := 1;
     Customer.acquisition_date := 18000;
     Customer.last_interaction_date := 1600000000;
     Customer.satisfaction_score := 7;
     Customer.nps_score := 9;
     Customer.status := "ACTIVE" |}.

Definition sample_source : Source :=
  {| transactions_feed := fun _ _ => Ok [sample_transaction];
     customers_feed := Ok [sample_customer] |}.

(** A server whose [staging.transactions] rejects every row. *)
Definition rejecting_db : DatabaseConnection :=
  {| accepting := true;
     transaction_ok := fun _ _ => false;
     customer_ok := fun _ _ => true;
     last_updated_default := fun _ => None |}.

(** A server that takes every row. *)
Definition accepting_db : DatabaseConnection :=
  {| accepting := true;
     transaction_ok := fun _ _ => true;
     customer_ok := fun _ _ => true;
     last_updated_default := fun _ => None |}.

Definition sample_loaded_transaction : Transaction.transformed :=
  {| Transaction.raw := sample_transaction;
     Transaction.is_weekend := false;
     Transaction.is_holiday := false |}.

Definition sample_loaded_customer : Customer.transformed :=
  {| Customer.raw := sample_customer;
     Customer.age := 50;
     Customer.customer_tenure_days := 1000 |}.

(** The rows [transform_transactions] keeps: a non-negative amount and one
    of the three known statuses. *)
Definition valid_transaction (r : Transaction.t) : bool :=
  Qle_bool 0 (Transaction.amount r) &&
  isin (Transaction.status r) ["COMPLETED"; "PENDING"; "FAILED"].


(** A staging area that already holds a row under the key of
    [sample_transaction] and a row under the key of [sample_customer],
    stored by an earlier run with other values. *)
Definition stocked_transaction : Transaction.transformed :=
  {| Transaction.raw :=
       {| Transaction.transaction_id := 10;
          Transaction.transaction_date := 18990;
          Transaction.transaction_time := 60;
          Transaction.branch_id := 7;
          Transaction.customer_id := 1;
          Transaction.product_id := 1;
          Transaction.amount := 777;
          Transaction.transaction_type_id := 1;
          Transaction.employee_id := 1;
          Transaction.channel_id := 1;
          Transaction.status := "FAILED" |};
     Transaction.is_weekend := true;
     Transaction.is_holiday := true |}.

Definition stocked_customer : Customer.transformed :=
  {| Customer.raw :=
       {| Customer.customer_id := 1;
          Customer.first_name := "Grace";
          Customer.last_name := "Hopper";
          Customer.date_of_birth := 0;
          Customer.address := "9 Old Road";
          Customer.city := "Milan";
          Customer.state := "MI";
          Customer.zip_code := "20100";
          Customer.email := "g@example.org";
          Customer.phone := "555-0199";
          Customer.customer_segment_id := 3;
          Customer.acquisition_date := 17000;
          Customer.last_interaction_date := 1500000000;
          Customer.satisfaction_score := 2;
          Customer.nps_score := 3;
          Customer.status := "INACTIVE" |};
     Customer.age := 49;
     Customer.customer_tenure_days := 2000 |}.

Definition stocked_world : world :=
  {| logged := [];
     committed :=
       {| transactions := {[ 10 := {| cols := stocked_transaction; last_updated := Some 0 |} ]};
          customers := {[ 1 := {| cols := stocked_customer; last_updated := Some 0 |} ]} |};
     pending := None |}.

(** A second transaction and a second customer, under other keys. *)
Definition other_loaded_transaction : Transaction.transformed :=
  {| Transaction.raw :=
       {| Transaction.transaction_id := 11;
          Transaction.transaction_date := 19002;
          Transaction.transaction_time := 7200;
          Transaction.branch_id := 2;
          Transaction.customer_id := 1;
          Transaction.product_id := 3;
          Transaction.amount := 12;
          Transaction.transaction_type_id := 1;
          Transaction.employee_id := 4;
          Transaction.channel_id := 1;
          Transaction.status := "COMPLETED" |};
     Transaction.is_weekend := true;
     Transaction.is_holiday := true |}.

Definition other_loaded_customer : Customer.transformed :=
  {| Customer.raw :=
       {| Customer.customer_id := 2;
          Customer.first_name := "Alan";
          Customer.last_name := "Mathison";
          Customer.date_of_birth := 1000;
          Customer.address := "2 High Street";
          Customer.city := "Turin";
          Customer.state := "TO";
          Customer.zip_code := "10100";
          Customer.email := "b@example.org";
          Customer.phone := "555-0101";
          Customer.customer_segment_id := 2;
          Customer.acquisition_date := 18500;
          Customer.last_interaction_date := 1650000000;
          Customer.satisfaction_score := 8;
          Customer.nps_score := 6;
          Customer.status := "ACTIVE" |};
     Customer.age := 47;
     Customer.customer_tenure_days := 500 |}.

End etl_processes.

(** * Properties *)

(** ** Rounding is monotone, and decides the thresholds *)

Lemma percentage_zero_total part : percentage part 0 = 0%Q.
Proof. reflexivity. Qed.

Section rounding.
Local Open Scope Q_scope.

Lemma nearest_even_mono x y : x <= y -> (nearest_even x <= nearest_even y)%Z.
Proof.
  intros Hxy. unfold nearest_even.
  pose proof (Qfloor_le x) as Hx1. pose proof (Qlt_floor x) as Hx2.
  pose proof (Qfloor_le y) as Hy1. pose proof (Qlt_floor y) as Hy2.
  pose proof (Qfloor_resp_le _ _ Hxy) as Hf.
  rewrite inject_Z_plus in Hx2, Hy2.
  destruct (Z.eq_dec (Qfloor x) (Qfloor y)) as [E|NE].
  - rewrite E in *.
    destruct (Qcompare_spec (x - inject_Z (Qfloor y)) (1 # 2));
      destruct (Qcompare_spec (y - inject_Z (Qfloor y)) (1 # 2));
      destruct (Z.even (Qfloor y)); try lia; exfalso; lra.
  - assert (Qfloor x + 1 <= Qfloor y)%Z by lia.
    destruct (Qcompare (x - inject_Z (Qfloor x)) (1 # 2));
      destruct (Qcompare (y - inject_Z (Qfloor y)) (1 # 2));
      destruct (Z.even (Qfloor x)); destruct (Z.even (Qfloor y)); lia.
Qed.

Lemma nearest_even_Z z : nearest_even (inject_Z z) = z.
Proof.
  unfold nearest_even. rewrite Qfloor_Z.
  destruct (Qcompare_spec (inject_Z z - inject_Z z) (1 # 2)) as [H|H|H]; try lra; reflexivity.
Qed.

Lemma nearest_even_ge z x : inject_Z z <= x -> (z <= nearest_even x)%Z.
Proof. intros H. rewrite <- (nearest_even_Z z). by apply nearest_even_mono. Qed.

Lemma nearest_even_le z x : x <= inject_Z z -> (nearest_even x <= z)%Z.
Proof. intros H. rewrite <- (nearest_even_Z z). by apply nearest_even_mono. Qed.

Lemma two_power_pos k : 0 < 2 ^ k.
Proof. apply Qpower_0_lt. reflexivity. Qed.

Lemma two_power_add a b : 2 ^ (a + b) == 2 ^ a * 2 ^ b.
Proof. apply Qpower_plus. discriminate. Qed.

Lemma two_power_Z n : (0 <= n)%Z -> inject_Z (2 ^ n) == 2 ^ n.
Proof. intros H. by rewrite Zpower_Qpower. Qed.

Lemma magnitude_spec x :
  0 < x -> 2 ^ magnitude x <= x /\ x < 2 ^ (magnitude x + 1).
Proof.
  intros Hx. unfold magnitude.
  set (n := Qnum x). set (d := Zpos (Qden x)).
  assert (0 < n)%Z as Hn by (destruct x as [[|p|p] q]; done).
  assert (0 < d)%Z as Hd by done.
  destruct (Z.log2_spec n Hn) as [Hn1 Hn2]. destruct (Z.log2_spec d Hd) as [Hd1 Hd2].
  pose proof (Z.log2_nonneg n) as Ha. pose proof (Z.log2_nonneg d) as Hb.
  set (a := Z.log2 n) in *. set (b := Z.log2 d) in *.
  assert (x == inject_Z n / inject_Z d) as Hxe by (destruct x; apply Qmake_Qdiv).
  assert (0 < inject_Z d) as HdQ by (unfold Qlt; simpl; lia).
  rewrite Zle_Qle, two_power_Z in Hn1, Hd1 by lia.
  rewrite Zlt_Qlt, two_power_Z in Hn2, Hd2 by lia.
  assert (x < 2 ^ (a - b + 1)) as Hup.
  { rewrite Hxe. apply Qlt_shift_div_r; [done|].
    eapply Qlt_le_trans; [exact Hn2|].
    replace (Z.succ a) with ((a - b + 1) + b)%Z by lia. rewrite two_power_add.
    apply Qmult_le_l; [apply two_power_pos|done]. }
  assert (2 ^ (a - b - 1) <= x) as Hlow.
  { rewrite Hxe. apply Qle_shift_div_l; [done|].
    eapply Qle_trans; [|exact Hn1].
    replace a with ((a - b - 1) + Z.succ b)%Z at 2 by lia. rewrite two_power_add.
    apply Qmult_le_l; [apply two_power_pos|]. by apply Qlt_le_weak. }
  destruct (Qle_bool (2 ^ (a - b)) x) eqn:E.
  - apply Qle_bool_iff in E. done.
  - split; [done|]. replace (a - b - 1 + 1)%Z with (a - b)%Z by lia.
    apply Qnot_le_lt. intros Hc. apply Qle_bool_iff in Hc. congruence.
Qed.

Lemma magnitude_mono x y : 0 < x -> x <= y -> (magnitude x <= magnitude y)%Z.
Proof.
  intros Hx Hxy. assert (0 < y) as Hy by lra.
  destruct (magnitude_spec x Hx) as [H1 _]. destruct (magnitude_spec y Hy) as [_ H2].
  assert (2 ^ magnitude x < 2 ^ (magnitude y + 1)) as H by lra.
  apply Qpower_lt_compat_l_inv in H; [lia|reflexivity].
Qed.

Lemma round_pos x :
  0 < x -> round x == inject_Z (nearest_even (x / 2 ^ (magnitude x - 52))) * 2 ^ (magnitude x - 52).
Proof.
  intros Hx. unfold round. destruct (Qle_bool x 0) eqn:E.
  - apply Qle_bool_iff in E. lra.
  - apply Qred_correct.
Qed.

Lemma round_nonpos x : x <= 0 -> round x = 0.
Proof. intros Hx. unfold round. apply Qle_bool_iff in Hx. by rewrite Hx. Qed.

Lemma scaled_range x :
  0 < x ->
  inject_Z (2 ^ 52) <= x / 2 ^ (magnitude x - 52) /\
  x / 2 ^ (magnitude x - 52) <= inject_Z (2 ^ 53).
Proof.
  intros Hx. destruct (magnitude_spec x Hx) as [H1 H2].
  rewrite !two_power_Z by lia. split.
  - apply Qle_shift_div_l; [apply two_power_pos|].
    rewrite <- two_power_add. by replace (52 + (magnitude x - 52))%Z with (magnitude x) by lia.
  - apply Qle_shift_div_r; [apply two_power_pos|].
    rewrite <- two_power_add.
    replace (53 + (magnitude x - 52))%Z with (magnitude x + 1)%Z by lia. by apply Qlt_le_weak.
Qed.

Lemma round_range x :
  0 < x -> 2 ^ magnitude x <= round x /\ round x <= 2 ^ (magnitude x + 1).
Proof.
  intros Hx. rewrite (round_pos x Hx).
  destruct (scaled_range x Hx) as [H1 H2].
  apply nearest_even_ge in H1. apply nearest_even_le in H2.
  rewrite Zle_Qle, two_power_Z in H1, H2 by lia.
  pose proof (two_power_pos (magnitude x - 52)) as Hp. split.
  - replace (magnitude x) with (52 + (magnitude x - 52))%Z at 1 by lia.
    rewrite two_power_add. by apply Qmult_le_r.
  - replace (magnitude x + 1)%Z with (53 + (magnitude x - 52))%Z by lia.
    rewrite two_power_add. by apply Qmult_le_r.
Qed.

Lemma round_nonneg x : 0 <= round x.
Proof.
  destruct (Qlt_le_dec 0 x) as [Hx|Hx].
  - destruct (round_range x Hx) as [H _]. pose proof (two_power_pos (magnitude x)). lra.
  - by rewrite round_nonpos.
Qed.

Lemma round_mono x y : x <= y -> round x <= round y.
Proof.
  intros Hxy. destruct (Qlt_le_dec 0 x) as [Hx|Hx].
  2:{ rewrite (round_nonpos x Hx). apply round_nonneg. }
  assert (0 < y) as Hy by lra.
  pose proof (magnitude_mono x y Hx Hxy) as Hm.
  destruct (Z.eq_dec (magnitude x) (magnitude y)) as [E|NE].
  - rewrite (round_pos x Hx), (round_pos y Hy), E.
    pose proof (two_power_pos (magnitude y - 52)) as Hp.
    apply Qmult_le_r; [done|]. rewrite <- Zle_Qle. apply nearest_even_mono.
    apply Qmult_le_r; [by apply Qinv_lt_0_compat|done].
  - destruct (round_range x Hx) as [_ H1]. destruct (round_range y Hy) as [H2 _].
    assert (2 ^ (magnitude x + 1) <= 2 ^ magnitude y) as H.
    { apply Qpower_le_compat_l; [lia|done]. }
    lra.
Qed.

Lemma pct_mono x y : x <= y -> pct x <= pct y.
Proof.
  intros H. unfold pct. apply round_mono. apply round_mono in H. lra.
Qed.

Example rounding_is_the_machine_s :
  forallb (fun c => match machine_percentage c.1 c.2 with
                    | Some q => Qeq_bool q (percentage c.1 c.2)
                    | None => false
                    end) sampled_counts = true.
Proof. vm_compute. reflexivity. Qed.

Lemma percentage_pct part total :
  (0 < total)%Z -> percentage part total = pct (inject_Z part / inject_Z total).
Proof.
  intros H. unfold percentage, fmul, truediv, pct.
  by destruct (Z.ltb_spec 0 total); [|lia].
Qed.

Lemma quotient_le (a b p t : Z) :
  (0 < b)%Z -> (0 < t)%Z ->
  inject_Z a / inject_Z b <= inject_Z p / inject_Z t <-> (a * t <= p * b)%Z.
Proof.
  intros Hb Ht. destruct b as [|b|b], t as [|t|t]; try lia.
  unfold Qle, Qdiv, Qmult, Qinv, inject_Z; simpl. rewrite !Z.mul_1_r. reflexivity.
Qed.

Lemma at_least_agrees (T a b p t : Z) :
  (0 < b)%Z -> (T * b = 100 * a)%Z ->
  Qle_bool (inject_Z T) (pct (inject_Z a / inject_Z b)) = true ->
  Qle_bool (inject_Z T)
    (pct (inject_Z (a * row_limit - 1) / inject_Z (b * row_limit))) = false ->
  (0 < t <= row_limit)%Z ->
  at_least (percentage p t) (inject_Z T) = true <-> (T * t <= 100 * p)%Z.
Proof.
  intros Hb HT Hin Hout [Ht Hlim]. unfold at_least.
  rewrite percentage_pct by done. rewrite Qle_bool_iff in *.
  assert (0 < row_limit)%Z as HL by reflexivity.
  split.
  - intros Hpass. destruct (Z.le_gt_cases (T * t) (100 * p)) as [|Hlt]; [done|exfalso].
    assert (inject_Z p / inject_Z t
            <= inject_Z (a * row_limit - 1) / inject_Z (b * row_limit)) as Hq.
    { assert (b * p + 1 <= a * t)%Z as Hbp.
      { assert (b * (100 * p) < b * (T * t))%Z as H by (by apply Z.mul_lt_mono_pos_l).
        replace (b * (T * t))%Z with (100 * a * t)%Z in H by (rewrite <- HT; ring). lia. }
      assert ((b * p + 1) * row_limit <= a * t * row_limit)%Z as Hs
        by (by apply Z.mul_le_mono_nonneg_r; [lia|]).
      apply quotient_le; [done|nia|]. lia. }
    apply pct_mono in Hq.
    assert (inject_Z T <= pct (inject_Z (a * row_limit - 1) / inject_Z (b * row_limit)))
      as Hc by lra.
    apply Qle_bool_iff in Hc. congruence.
  - intros Hle.
    assert (inject_Z a / inject_Z b <= inject_Z p / inject_Z t) as Hq.
    { apply quotient_le; [done|done|].
      assert (b * (T * t) <= b * (100 * p))%Z as H by (apply Z.mul_le_mono_nonneg_l; lia).
      replace (b * (T * t))%Z with (100 * a * t)%Z in H by (rewrite <- HT; ring). lia. }
    apply pct_mono in Hq. lra.
Qed.

Lemma at_least_95 p t :
  (0 < t <= row_limit)%Z ->
  at_least (percentage p t) 95 = true <-> (95 * t <= 100 * p)%Z.
Proof.
  apply (at_least_agrees 95 19 20); [done|done|by vm_compute|by vm_compute].
Qed.

Lemma at_least_98 p t :
  (0 < t <= row_limit)%Z ->
  at_least (percentage p t) 98 = true <-> (98 * t <= 100 * p)%Z.
Proof.
  apply (at_least_agrees 98 49 50); [done|done|by vm_compute|by vm_compute].
Qed.

Lemma exactly_100 p t :
  (0 < t <= row_limit)%Z ->
  exactly (percentage p t) 100 = true <-> p = t.
Proof.
  intros [Ht Hlim]. unfold exactly. rewrite percentage_pct by done.
  rewrite Qeq_bool_iff.
  assert (0 < row_limit)%Z as HL by reflexivity.
  assert (pct (inject_Z 1 / inject_Z 1) == 100) as H1 by (by vm_compute).
  assert (pct (inject_Z (row_limit - 1) / inject_Z row_limit) < 100) as Hlo
    by (by vm_compute).
  assert (100 < pct (inject_Z (row_limit + 1) / inject_Z row_limit)) as Hhi
    by (by vm_compute).
  split.
  - intros Heq. destruct (Z.lt_trichotomy p t) as [Hlt|[->|Hgt]]; [exfalso| done |exfalso].
    + assert (inject_Z p / inject_Z t
              <= inject_Z (row_limit - 1) / inject_Z row_limit) as Hq.
      { apply quotient_le; [done|done|]. nia. }
      apply pct_mono in Hq. lra.
    + assert (inject_Z (row_limit + 1) / inject_Z row_limit
              <= inject_Z p / inject_Z t) as Hq.
      { apply quotient_le; [done|done|]. nia. }
      apply pct_mono in Hq. lra.
  - intros ->.
    assert (inject_Z 1 / inject_Z 1 <= inject_Z t / inject_Z t) as Ha
      by (apply quotient_le; [done|done|lia]).
    assert (inject_Z t / inject_Z t <= inject_Z 1 / inject_Z 1) as Hb
      by (apply quotient_le; [done|done|lia]).
    apply pct_mono in Ha, Hb. lra.
Qed.
End rounding.

(** ** The quality checks *)

Section quality_checks.

Import data_quality.

Lemma with_cursor_returns {A} db k (body : M state A) s a s' :
  with_cursor db k body s = (Ok a, s') ->
  accepting db = true /\ body (log (INFO Connected) s).2 = (Ok a, s').
Proof.
  unfold with_cursor, connect. destruct (accepting db).
  - simpl. unfold try_finally, try_except.
    destruct (body _) as [[a'|e] s1]; simpl; intros H; inversion H; auto.
  - simpl. discriminate.
Qed.

Lemma count_when_bounds db now rs conds n :
  count_when db now rs conds = Ok n -> 0 <= n <= Z.of_nat (length rs).
Proof.
  revert n. induction rs as [|r rs IH]; simpl; intros n H.
  - inversion H; lia.
  - destruct (conjunction db now r conds); [|discriminate].
    destruct (count_when db now rs conds) as [m|]; [|discriminate].
    specialize (IH m eq_refl). inversion H. case_bool_decide; lia.
Qed.

Lemma query2_returns db now stmt s total good s' :
  query2 db now stmt s = (Ok (total, good), s') ->
  s' = s /\ 0 <= good <= total.
Proof.
  unfold query2, lift. intros H. inversion H as [[H1 H2]]. split; [done|].
  clear H H2. destruct stmt; simpl in H1.
  - destruct (relations db !! tbl); [|discriminate].
    case_bool_decide; [|discriminate]. simpl in H1. inversion H1.
    unfold count_non_null. pose proof (length_filter (fun r => is_Some (r !! col)) (rows t)). lia.
  - destruct (relations db !! tbl); [|discriminate].
    destruct (_ && _); [|discriminate].
    destruct (count_when db now (rows t) conds) as [n|] eqn:E; [|discriminate].
    apply count_when_bounds in E. simpl in H1. inversion H1. lia.
  - repeat case_match; simplify_eq.
  - repeat case_match; simplify_eq.
Qed.

Lemma query1_returns db now stmt s n s' :
  query1 db now stmt s = (Ok n, s') -> s' = s /\ 0 <= n.
Proof.
  unfold query1, lift. intros H. inversion H as [[H1 H2]]. split; [done|].
  clear H H2. destruct stmt; simpl in H1; repeat case_match; simplify_eq; simpl in *;
    simplify_eq; unfold count_non_null, orphaned; try lia.
Qed.

Lemma call_returns db now c s r s' :
  call db now c s = (Ok r, s') ->
  exists total good,
    0 <= total /\ check_type r = kind_of c /\ total_count r = total /\
    error_count r = total - good /\
    passed r = verdict (kind_of c) (percentage good total) /\
    headline r = Some (percentage good total).
Proof.
  destruct c; simpl; intros H; apply with_cursor_returns in H as [_ H];
    unfold mbind, M_bind, bind in H.
  - destruct (query2 _ _ _ _) as [[[total good]|] s1] eqn:E; [|discriminate].
    apply query2_returns in E as [-> E]. simpl in H. inversion H; subst; simpl.
    exists total, good. repeat split; try lia; auto.
  - destruct (lift _ _) as [[conds|] s0]; [|discriminate].
    destruct (query2 _ _ _ _) as [[[total good]|] s1] eqn:E; [|discriminate].
    apply query2_returns in E as [-> E]. simpl in H. inversion H; subst; simpl.
    exists total, good. repeat split; try lia; auto.
  - destruct (query1 _ _ _ _) as [[orphans|] s0] eqn:E0; [|discriminate].
    apply query1_returns in E0 as [-> E0].
    destruct (query1 _ _ _ _) as [[total|] s1] eqn:E; [|discriminate].
    apply query1_returns in E as [-> E]. simpl in H. inversion H; subst; simpl.
    exists total, (total - orphans). repeat split; try lia; auto.
  - match type of H with
    | match ?m ?s with _ => _ end = _ => destruct (m s) as [[stmt|] s0]; [|discriminate]
    end.
    destruct (query2 _ _ _ _) as [[[total good]|] s1] eqn:E; [|discriminate].
    apply query2_returns in E as [-> E]. simpl in H. inversion H; subst; simpl.
    exists total, good. repeat split; try lia; auto.
  - destruct (query2 _ _ _ _) as [[[total good]|] s1] eqn:E; [|discriminate].
    apply query2_returns in E as [-> E]. simpl in H. inversion H; subst; simpl.
    exists total, good. repeat split; try lia; auto.
Qed.

Lemma ratio_at_least e total (n : positive) :
  0 < total ->
  Qle_bool (Z.pos n # 100) (ratio e total) = true <-> Z.pos n * total <= 100 * (total - e).
Proof.
  intros Ht. unfold ratio. destruct (Z.eqb_spec total 0) as [|_]; [lia|].
  rewrite Qle_bool_iff.
  destruct total as [|p|p]; try lia.
  unfold Qle, Qmult, Qdiv, Qinv, inject_Z; simpl.
  rewrite ?Z.mul_1_r, ?Pos.mul_1_r. lia.
Qed.

Lemma ratio_exactly e total :
  0 < total -> Qeq_bool (ratio e total) 1 = true <-> e = 0.
Proof.
  intros Ht. unfold ratio. destruct (Z.eqb_spec total 0) as [|_]; [lia|].
  rewrite Qeq_bool_iff.
  destruct total as [|p|p]; try lia.
  unfold Qeq, Qmult, Qdiv, Qinv, inject_Z; simpl.
  rewrite ?Z.mul_1_r, ?Pos.mul_1_r. lia.
Qed.

Lemma verdict_meets_threshold k good total :
  0 <= total <= row_limit ->
  verdict k (percentage good total) = meets_threshold k (total - good) total.
Proof.
  intros [Ht Hlim]. destruct (Z.eq_dec total 0) as [->|Hne].
  { destruct k; reflexivity. }
  assert (0 < total <= row_limit) as Hpos by lia.
  apply eq_true_iff_eq.
  destruct k; unfold verdict, meets_threshold, threshold.
  - rewrite at_least_95, ratio_at_least by (done || lia). lia.
  - rewrite at_least_98, ratio_at_least by (done || lia). lia.
  - rewrite exactly_100, ratio_exactly by (done || lia). lia.
  - rewrite exactly_100, ratio_exactly by (done || lia). lia.
  - rewrite at_least_95, ratio_at_least by (done || lia). lia.
Qed.

(** C2. Whatever check returns, over a table of at most [row_limit] rows,
    its [passed] field is the specification's decision on the counts it
    reports: the exact ratio of rows that are not errors meets the
    threshold of the kind, at least 95% for completeness and timeliness, at
    least 98% for accuracy, exactly 100% for consistency and validity.
    [passed] is thus a function of the kind, [error_count] and
    [total_count] alone, and the rounding of the two floating-point
    operations never changes the decision. *)
Theorem passed_is_ratio_against_threshold db now c s r s' :
  call db now c s = (Ok r, s') ->
  total_count r <= row_limit ->
  check_type r = kind_of c /\
  passed r = meets_threshold (kind_of c) (error_count r) (total_count r).
Proof.
  intros H Hlim.
  apply call_returns in H as (total & good & Ht & Hk & Htot & Herr & Hp & _).
  split; [done|]. rewrite Hp, Herr, Htot. apply verdict_meets_threshold. lia.
Qed.

(** The completeness check of [core.customer.phone] on the small
    warehouse returns, and its verdict follows the rule. *)
Lemma passed_is_ratio_against_threshold_witness :
  exists r s',
    call example_db 1000 (Completeness "core.customer" "phone") init = (Ok r, s') /\
    total_count r <= row_limit /\
    check_type r = COMPLETENESS /\
    passed r = meets_threshold COMPLETENESS (error_count r) (total_count r).
Proof.
  eexists _, _. split; [|split].
  - vm_compute. reflexivity.
  - vm_compute. discriminate.
  - eapply (passed_is_ratio_against_threshold example_db 1000
              (Completeness "core.customer" "phone") init).
    + vm_compute. reflexivity.
    + vm_compute. discriminate.
Defined.

Example completeness_94_of_100 : verdict COMPLETENESS (percentage 94 100) = false.
Proof. reflexivity. Qed.

Example completeness_95_of_100 : verdict COMPLETENESS (percentage 95 100) = true.
Proof. reflexivity. Qed.

Example consistency_one_orphan_of_10 : verdict CONSISTENCY (percentage (10 - 1) 10) = false.
Proof. reflexivity. Qed.

Example accuracy_of_four_scores :
  match outcome scores_db 1000 (Accuracy "scores" "score" [("min"%string, RNum 0); ("max"%string, RNum 10)]) with
  | Ok r => Some (total_count r, error_count r, Qred <$> headline r, passed r)
  | Raise _ => None
  end = Some (4, 2, Some 50%Q, false).
Proof. vm_compute. reflexivity. Qed.

(** C5. Whatever the kind of the check, a result over zero rows carries
    the percentage 0 and [passed = false]. *)
Theorem empty_table_fails db now c s r s' :
  call db now c s = (Ok r, s') ->
  total_count r = 0 ->
  headline r = Some 0%Q /\ passed r = false.
Proof.
  intros H H0. apply call_returns in H as (total & good & Ht & Hk & Htot & Herr & Hp & Hh).
  subst total. rewrite Hp, Hh, H0.
  split; [reflexivity|]. by destruct (kind_of c).
Qed.

(** A consistency check between two empty tables returns such a result. *)
Lemma empty_table_fails_witness :
  exists r s',
    call vacant_db 1000 (Consistency "t" "ref" "r" "id") init = (Ok r, s') /\
    total_count r = 0 /\
    headline r = Some 0%Q /\ passed r = false.
Proof.
  eexists _, _. split_and!.
  - vm_compute. reflexivity.
  - reflexivity.
  - eapply (empty_table_fails vacant_db 1000 (Consistency "t" "ref" "r" "id") init);
      vm_compute; reflexivity.
  - eapply (empty_table_fails vacant_db 1000 (Consistency "t" "ref" "r" "id") init);
      vm_compute; reflexivity.
Defined.

Example every_kind_fails_on_an_empty_table :
  map (fun c => match outcome vacant_db 1000 c with
                | Ok r => Some (check_type r, total_count r, headline r, passed r)
                | Raise _ => None
                end) vacant_checks =
  [ Some (COMPLETENESS, 0, Some 0%Q, false);
    Some (ACCURACY, 0, Some 0%Q, false);
    Some (CONSISTENCY, 0, Some 0%Q, false);
    Some (VALIDITY, 0, Some 0%Q, false);
    Some (TIMELINESS, 0, Some 0%Q, false) ].
Proof. vm_compute. reflexivity. Qed.

Lemma sql_eq_true (a b : option value) :
  sql_eq a b = Some true <-> exists v, a = Some v /\ b = Some v.
Proof.
  destruct a as [x|], b as [y|]; simpl.
  - split.
    + intros [= H]. apply bool_decide_eq_true in H. subst. eauto.
    + intros (v & [= ->] & [= ->]). by rewrite bool_decide_eq_true_2.
  - split; [discriminate|]. intros (v & _ & ?). discriminate.
  - split; [discriminate|]. intros (v & ? & _). discriminate.
  - split; [discriminate|]. intros (v & ? & _). discriminate.
Qed.

Lemma matches_of_null (rs : list (gmap string value)) col rcol (t : gmap string value) :
  t !! col = None -> filter (matching t col rcol) rs = [].
Proof.
  intros Hn. induction rs as [|r rs IH]; [done|].
  rewrite filter_cons, IH. case_decide as Hm; [|done].
  rewrite Hn in Hm. discriminate.
Qed.

Lemma matches_nil (rs : list (gmap string value)) col rcol (t : gmap string value) v :
  t !! col = Some v ->
  filter (matching t col rcol) rs = [] <-> Forall (fun r => r !! rcol ≠ Some v) rs.
Proof.
  intros Hv. induction rs as [|r rs IH].
  - split; [constructor|done].
  - rewrite filter_cons. case_decide as Hm.
    + split; [done|]. intros Hall. apply Forall_cons in Hall as [Hne _].
      apply sql_eq_true in Hm as (v' & Hv' & Hr). congruence.
    + rewrite IH, Forall_cons. split; [|tauto].
      intros Hall. split; [|done]. intros Hr. apply Hm, sql_eq_true. eauto.
Qed.

Lemma matched_not_null (rs : list (gmap string value)) col rcol (t : gmap string value) :
  filter (fun j => right_is_null rcol j = true)
    (map (fun r => (t, Some r)) (filter (matching t col rcol) rs)) = [].
Proof.
  induction rs as [|r rs IH]; [done|].
  rewrite filter_cons. case_decide as Hm; [|done].
  simpl. rewrite filter_cons, IH. case_decide as Hn; [|done].
  unfold right_is_null in Hn. simpl in Hn. apply bool_decide_eq_true in Hn.
  apply sql_eq_true in Hm as (v & _ & Hr). congruence.
Qed.

Lemma orphaned_cons (t : gmap string value) ts rs col rcol :
  orphaned (t :: ts) rs col rcol =
  (if bool_decide (t !! col = None) then 1 else 0) +
  (if dangling rs col rcol t then 1 else 0) + orphaned ts rs col rcol.
Proof.
  unfold orphaned, left_join. simpl. rewrite filter_app, length_app, Nat2Z.inj_add.
  f_equal. unfold dangling.
  pose proof (matches_of_null rs col rcol t) as Hnull.
  pose proof (matches_nil rs col rcol t) as Hsome.
  pose proof (matched_not_null rs col rcol t) as Hnn.
  destruct (filter (matching t col rcol) rs) as [|m ms];
    destruct (t !! col) as [v|].
  - rewrite bool_decide_eq_false_2 by done.
    rewrite bool_decide_eq_true_2 by (by apply Hsome). reflexivity.
  - rewrite bool_decide_eq_true_2 by done. reflexivity.
  - rewrite bool_decide_eq_false_2 by done.
    rewrite bool_decide_eq_false_2 by (intros Hall; by apply Hsome in Hall).
    simpl in Hnn. rewrite Hnn. reflexivity.
  - by specialize (Hnull eq_refl).
Qed.

Lemma orphaned_count ts rs col rcol :
  orphaned ts rs col rcol =
  Z.of_nat (length (filter (fun t : gmap string value => t !! col = None) ts)) +
  Z.of_nat (length (filter (fun t => dangling rs col rcol t = true) ts)).
Proof.
  induction ts as [|t ts IH]; [done|].
  rewrite orphaned_cons, IH, !filter_cons.
  case_bool_decide; destruct (dangling rs col rcol t); simpl;
    repeat case_decide; simpl; try congruence; lia.
Qed.

(** C8, as the code has it.  The orphan count of a consistency check is the
    number of rows whose key is NULL plus the number of rows whose key is
    present and carried by no reference row: the left join leaves a row
    with a NULL key unmatched, and the filter on the right side counts
    it. *)
Theorem orphans_include_null_keys db now tbl col rtbl rcol s r s' t rt :
  check_consistency db now tbl col rtbl rcol s = (Ok r, s') ->
  relations db !! tbl = Some t ->
  relations db !! rtbl = Some rt ->
  error_count r =
    Z.of_nat (length (filter (fun row : gmap string value => row !! col = None) (rows t))) +
    Z.of_nat (length (filter (fun row => dangling (rows rt) col rcol row = true) (rows t))).
Proof.
  intros H Ht Hrt. apply with_cursor_returns in H as [_ H].
  unfold mbind, M_bind, bind in H.
  destruct (query1 _ _ _ _) as [[orphans|] s0] eqn:E0; [|discriminate].
  destruct (query1 _ _ _ s0) as [[total|] s1] eqn:E; [|discriminate].
  simpl in H. inversion H; subst; simpl. clear H E.
  unfold query1, lift in E0. simpl in E0. rewrite Ht, Hrt in E0.
  repeat case_match; simplify_eq. simpl in *. simplify_eq. apply orphaned_count.
Qed.

(** The count on the small warehouse, whose second transaction has no
    customer. *)
Lemma orphans_include_null_keys_witness :
  exists r s',
    check_consistency example_db 1000 "core.transaction" "customer_id"
      "core.customer" "customer_id" init = (Ok r, s') /\
    error_count r =
      Z.of_nat (length (filter (fun row : gmap string value => row !! "customer_id"%string = None)
                          (rows transaction_table))) +
      Z.of_nat (length (filter (fun row =>
                                  dangling (rows customer_table) "customer_id" "customer_id" row = true)
                          (rows transaction_table))).
Proof.
  eexists _, _. split.
  - vm_compute. reflexivity.
  - eapply (orphans_include_null_keys example_db 1000 "core.transaction" "customer_id"
              "core.customer" "customer_id" init).
    + vm_compute. reflexivity.
    + vm_compute. reflexivity.
    + vm_compute. reflexivity.
Defined.

(** C8 fails as stated.  On the small warehouse no transaction has a
    customer key without a customer, yet the check reports one orphan: the
    transaction whose customer key is NULL. *)
Lemma null_key_counted_as_orphan :
  exists r s',
    check_consistency example_db 1000 "core.transaction" "customer_id"
      "core.customer" "customer_id" init = (Ok r, s') /\
    error_count r = 1 /\
    filter (fun row => dangling (rows customer_table) "customer_id" "customer_id" row = true)
      (rows transaction_table) = [].
Proof.
  eexists _, _. split_and!.
  - vm_compute. reflexivity.
  - reflexivity.
  - vm_compute. reflexivity.
Qed.

Lemma extend_extend s l l' : extend (extend s l) l' = extend s (l ++ l').
Proof. unfold extend; simpl. by rewrite app_assoc. Qed.

Lemma extend_nil s : extend s [] = s.
Proof. destruct s; unfold extend; simpl. by rewrite app_nil_r. Qed.

Lemma log_only_ret {A} (a : A) : log_only (ret a).
Proof. intros s. simpl. by rewrite extend_nil. Qed.

Lemma log_only_mret {A} (a : A) : log_only (mret a : M state A).
Proof. apply log_only_ret. Qed.

Lemma log_only_raise {A} e : log_only (raise e : M state A).
Proof. intros s. simpl. by rewrite extend_nil. Qed.

Lemma log_only_lift {A} (r : result A) : log_only (lift r).
Proof. intros s. simpl. by rewrite extend_nil. Qed.

Lemma log_only_log r : log_only (log r).
Proof. intros s. reflexivity. Qed.

Lemma log_only_bind {A B} (m : M state A) (k : A -> M state B) :
  log_only m -> (forall a, log_only (k a)) -> log_only (bind m k).
Proof.
  intros Hm Hk s. unfold bind. rewrite (Hm s).
  destruct (m init) as [[a|e] s0]; simpl; [|done].
  rewrite (Hk a (extend s _)), (Hk a s0). simpl. by rewrite extend_extend.
Qed.

Lemma log_only_mbind {A B} (m : M state A) (k : A -> M state B) :
  log_only m -> (forall a, log_only (k a)) -> log_only (mbind k m).
Proof. apply log_only_bind. Qed.

Lemma log_only_try_except {A} (m : M state A) (h : exn -> M state A) :
  log_only m -> (forall e, log_only (h e)) -> log_only (try_except m h).
Proof.
  intros Hm Hh s. unfold try_except. rewrite (Hm s).
  destruct (m init) as [[a|e] s0]; simpl; [done|].
  rewrite (Hh e (extend s _)), (Hh e s0). simpl. by rewrite extend_extend.
Qed.

Lemma log_only_try_finally {A} (m : M state A) (f : M state unit) :
  log_only m -> log_only f -> log_only (try_finally m f).
Proof.
  intros Hm Hf s. unfold try_finally. rewrite (Hm s).
  destruct (m init) as [r s0]; simpl.
  rewrite (Hf (extend s _)), (Hf s0).
  destruct (f init) as [[[]|e] s1]; simpl; by rewrite extend_extend.
Qed.

Lemma log_only_connect db : log_only (connect db).
Proof.
  unfold connect. destruct (accepting db).
  - apply log_only_log.
  - apply log_only_mbind; [apply log_only_log|]. intros _. apply log_only_raise.
Qed.

Lemma log_only_ext {A} (m m' : M state A) :
  (forall s, m s = m' s) -> log_only m' -> log_only m.
Proof. intros He Hm s. rewrite !He. apply Hm. Qed.

Lemma with_cursor_unfold {A} db k (body : M state A) s :
  with_cursor db k body s =
  (let handler e := (log (ERROR (CheckError k e));; raise e) in
   if accepting db
   then log (INFO Connected);;
        try_finally (try_except body handler) (ret tt)
   else log (ERROR (ConnectError OperationalError));;
        try_finally (try_except (raise OperationalError) handler)
          (raise UnboundLocalError)) s.
Proof. unfold with_cursor, connect. by destruct (accepting db). Qed.

Lemma log_only_with_cursor {A} db k (body : M state A) :
  log_only body -> log_only (with_cursor db k body).
Proof.
  intros Hb.
  assert (forall e, log_only (log (ERROR (CheckError k e));; raise e : M state A)) as Hh.
  { intros e. apply log_only_mbind; [apply log_only_log|]. intros _. apply log_only_raise. }
  eapply log_only_ext; [apply with_cursor_unfold|]. simpl.
  destruct (accepting db).
  - apply log_only_mbind; [apply log_only_log|]. intros _.
    apply log_only_try_finally; [|apply log_only_ret].
    by apply log_only_try_except.
  - apply log_only_mbind; [apply log_only_log|]. intros _.
    apply log_only_try_finally; [|apply log_only_raise].
    apply log_only_try_except; [apply log_only_raise|done].
Qed.

Create HintDb log_only.
#[local] Hint Resolve log_only_ret log_only_mret log_only_raise log_only_lift
  log_only_log log_only_mbind log_only_try_except log_only_try_finally
  log_only_with_cursor : log_only.

Lemma log_only_call db now c : log_only (call db now c).
Proof.
  destruct c; simpl; apply log_only_with_cursor.
  - apply log_only_mbind; [apply log_only_lift|]. intros [total good].
    apply log_only_mbind; auto with log_only.
  - apply log_only_mbind; [apply log_only_lift|]. intros conds.
    apply log_only_mbind; [apply log_only_lift|]. intros [total good].
    apply log_only_mbind; auto with log_only.
  - apply log_only_mbind; [apply log_only_lift|]. intros orphans.
    apply log_only_mbind; [apply log_only_lift|]. intros total.
    apply log_only_mbind; auto with log_only.
  - apply log_only_mbind.
    + repeat case_bool_decide; auto with log_only.
    + intros stmt. apply log_only_mbind; [apply log_only_lift|]. intros [total good].
      apply log_only_mbind; auto with log_only.
  - apply log_only_mbind; [apply log_only_lift|]. intros [total good].
    apply log_only_mbind; auto with log_only.
Qed.

Lemma run_one_spec db now c s :
  exists s' l,
    run_one db now c s = (Ok tt, s') /\
    results s' = results s ++
      match outcome db now c with Ok r => [r] | Raise _ => [] end /\
    quality_report_json s' = quality_report_json s /\
    logged s' = logged s ++ l /\
    forall e, outcome db now c = Raise e -> ERROR (ErrorRunning (name_of c) e) ∈ l.
Proof.
  unfold run_one, try_except, mbind, M_bind, bind, outcome.
  rewrite (log_only_call db now c s).
  destruct (call db now c init) as [[r|e] s0]; simpl.
  - destruct (passed r); simpl.
    + eexists _, _. split_and!; try done.
    + eexists _, (_ ++ _). split_and!; try done. simpl. by rewrite <- app_assoc.
  - eexists _, (_ ++ _). split_and!; try done; simpl.
    + by rewrite app_nil_r.
    + by rewrite <- app_assoc.
    + intros e' [= ->]. apply elem_of_app. right. by apply list_elem_of_singleton.
Qed.

Lemma for_each_run_one db now registry s :
  exists s' l,
    for_each registry (run_one db now) s = (Ok tt, s') /\
    results s' = results s ++ returned db now registry /\
    quality_report_json s' = quality_report_json s /\
    logged s' = logged s ++ l /\
    forall c e, c ∈ registry -> outcome db now c = Raise e ->
      ERROR (ErrorRunning (name_of c) e) ∈ l.
Proof.
  revert s. induction registry as [|c registry IH]; intros s.
  - exists s, []. simpl. rewrite !app_nil_r. repeat split; try done.
    intros c e Hc. by apply elem_of_nil in Hc.
  - destruct (run_one_spec db now c s) as (s1 & l1 & H1 & Hr1 & Hj1 & Hl1 & He1).
    destruct (IH s1) as (s2 & l2 & H2 & Hr2 & Hj2 & Hl2 & He2).
    exists s2, (l1 ++ l2). simpl. unfold bind. rewrite H1. repeat split.
    + done.
    + rewrite Hr2, Hr1. unfold returned. simpl. by rewrite app_assoc.
    + congruence.
    + rewrite Hl2, Hl1. by rewrite app_assoc.
    + intros c' e Hc' Ho. apply elem_of_app. apply elem_of_cons in Hc' as [->|Hc'].
      * left. by apply He1.
      * right. by eapply He2.
Qed.

Lemma run_registry_spec registry db now s :
  exists s' l,
    run_registry registry db now s = (Ok tt, s') /\
    results s' = results s ++ returned db now registry /\
    quality_report_json s' = Some (report_of now (results s')) /\
    logged s' = logged s ++ l /\
    forall c e, c ∈ registry -> outcome db now c = Raise e ->
      ERROR (ErrorRunning (name_of c) e) ∈ l.
Proof.
  destruct (for_each_run_one db now registry (log (INFO Starting) s).2)
    as (s1 & l1 & H1 & Hr1 & Hj1 & Hl1 & He1).
  unfold run_registry, try_except, mbind, M_bind, bind. simpl in *.
  rewrite H1. simpl.
  eexists _, (_ :: l1 ++ _). split_and!; simpl; try done.
  - rewrite Hl1. rewrite <- !app_assoc. simpl. reflexivity.
  - intros c e Hc Ho. apply elem_of_cons. right. apply elem_of_app. left. by eapply He1.
Qed.

(** C4, as the code has it.  A run returns normally; it appends to
    [self.results] the results of the checks that returned, and nothing for
    a check that raised; the report is built from [self.results] alone.  A
    check that raised leaves one ERROR record in the log and no entry in
    the results or in the report. *)
Theorem errored_checks_are_logged_and_left_out registry db now s :
  exists s',
    run_registry registry db now s = (Ok tt, s') /\
    results s' = results s ++ returned db now registry /\
    quality_report_json s' = Some (report_of now (results s')) /\
    Forall (fun c => match outcome db now c with
                     | Ok _ => True
                     | Raise e => ERROR (ErrorRunning (name_of c) e) ∈ logged s'
                     end) registry.
Proof.
  destruct (run_registry_spec registry db now s) as (s' & l & H & Hr & Hj & Hl & He).
  exists s'. split_and!; try done.
  apply Forall_forall. intros c Hc. destruct (outcome db now c) as [r|e] eqn:Ho; [done|].
  rewrite Hl. apply elem_of_app. right. by eapply He.
Qed.

Lemma report_of_app now rs rs' :
  total_checks (report_of now (rs ++ rs')) =
    total_checks (report_of now rs) + total_checks (report_of now rs') /\
  passed_checks (report_of now (rs ++ rs')) =
    passed_checks (report_of now rs) + passed_checks (report_of now rs') /\
  failed_checks (report_of now (rs ++ rs')) =
    failed_checks (report_of now rs) + failed_checks (report_of now rs') /\
  check_details (report_of now (rs ++ rs')) =
    check_details (report_of now rs) ++ check_details (report_of now rs').
Proof.
  unfold report_of; simpl. rewrite !filter_app, !length_app, map_app.
  split_and!; try lia; done.
Qed.

(** C9, as the code has it.  A second run on the same checker appends to
    the results of the first: its report repeats every detail of the first
    report and adds those of the second run, and its three counts are the
    first report's plus the second run's. *)
Theorem rerun_accumulates registry db now1 now2 s :
  exists s1 s2 rep1 rep2,
    run_registry registry db now1 s = (Ok tt, s1) /\
    run_registry registry db now2 s1 = (Ok tt, s2) /\
    quality_report_json s1 = Some rep1 /\
    quality_report_json s2 = Some rep2 /\
    total_checks rep2 =
      total_checks rep1 + Z.of_nat (length (returned db now2 registry)) /\
    passed_checks rep2 =
      passed_checks rep1 + passed_checks (report_of now2 (returned db now2 registry)) /\
    failed_checks rep2 =
      failed_checks rep1 + failed_checks (report_of now2 (returned db now2 registry)) /\
    check_details rep2 =
      check_details rep1 ++ map detail_of (returned db now2 registry).
Proof.
  destruct (run_registry_spec registry db now1 s) as (s1 & l1 & H1 & Hr1 & Hj1 & _).
  destruct (run_registry_spec registry db now2 s1) as (s2 & l2 & H2 & Hr2 & Hj2 & _).
  exists s1, s2, (report_of now1 (results s1)), (report_of now2 (results s2)).
  rewrite Hr2. destruct (report_of_app now2 (results s1) (returned db now2 registry))
    as (Ht & Hp & Hf & Hd).
  split_and!; try done. by rewrite Hj2, Hr2.
Qed.

(** C4 fails as stated.  On the small warehouse the consistency check
    against the missing table [core.branch] raises; the run's results and
    its report, which counts 11 checks out of the 14 of the registry, have
    no entry for it. *)
Lemma errored_check_missing_from_report :
  Consistency "core.transaction" "branch_id" "core.branch" "branch_id" ∈ checks /\
  outcome example_db 1000
    (Consistency "core.transaction" "branch_id" "core.branch" "branch_id")
    = Raise DatabaseError /\
  Forall (fun r => column_name r ≠ "branch_id"%string) (results sample_run) /\
  exists rep,
    quality_report_json sample_run = Some rep /\
    total_checks rep = 11 /\
    Forall (fun d => d_column_name d ≠ "branch_id"%string) (check_details rep).
Proof.
  split_and!.
  - unfold checks. set_solver.
  - vm_compute. reflexivity.
  - apply (bool_decide_unpack _). vm_compute. exact I.
  - eexists. split_and!.
    + vm_compute. reflexivity.
    + vm_compute. reflexivity.
    + apply (bool_decide_unpack _). vm_compute. exact I.
Qed.

(** C9 fails as stated.  On the small warehouse the first report counts
    11 checks, 8 of them passed; the report of a second run on the same
    checker and the same data counts 22 and 16. *)
Lemma second_report_counts_both_runs :
  (total_checks <$> quality_report_json sample_run) = Some 11 /\
  (total_checks <$> quality_report_json sample_rerun) = Some 22 /\
  (passed_checks <$> quality_report_json sample_run) = Some 8 /\
  (passed_checks <$> quality_report_json sample_rerun) = Some 16.
Proof. vm_compute. done. Qed.

Lemma condition_of_unsupported col rule v :
  supported rule = false -> condition_of col rule v = Ok [].
Proof.
  unfold supported, condition_of. intros H. apply bool_decide_eq_false in H.
  repeat case_bool_decide; subst; try done; exfalso; apply H; set_solver.
Qed.

Lemma validation_conditions_filter col (rules : validation_rules) :
  validation_conditions col rules =
  validation_conditions col (filter (fun kv => supported kv.1 = true) rules).
Proof.
  induction rules as [|[rule v] rules IH]; [done|].
  rewrite filter_cons. simpl. case_decide as Hs.
  - simpl. by rewrite IH.
  - apply not_true_is_false in Hs. rewrite condition_of_unsupported by done.
    rewrite IH. by case_match.
Qed.

Lemma validation_conditions_none col (rules : validation_rules) :
  Forall (fun kv => supported kv.1 = false) rules ->
  validation_conditions col rules = Ok [].
Proof.
  induction 1 as [|[rule v] rules Hs _ IH]; [done|].
  simpl in *. by rewrite condition_of_unsupported, IH.
Qed.

(** C10 fails on the code.  When no key of the mapping is [min], [max] or
    [allowed_values], no condition is built, the text between [CASE WHEN]
    and [THEN] is empty, the server rejects the statement and the check
    raises. *)
Theorem accuracy_without_supported_rule_raises db now tbl col (rules : validation_rules) s :
  Forall (fun kv => supported kv.1 = false) rules ->
  (check_accuracy db now tbl col rules s).1 =
    Raise (if accepting db then DatabaseError else UnboundLocalError).
Proof.
  intros Hn. unfold check_accuracy, with_cursor, connect.
  rewrite (validation_conditions_none col rules Hn).
  destruct (accepting db); simpl; [|done].
  unfold try_finally, try_except, mbind, M_bind, bind, query2, lift; simpl.
  by destruct (relations db !! tbl).
Qed.

(** The mapping [{'mean': 5}] on the small warehouse. *)
Lemma accuracy_without_supported_rule_raises_witness :
  Forall (fun kv : string * rule_value => supported kv.1 = false) [("mean"%string, RNum 5)] /\
  (check_accuracy example_db 1000 "core.customer" "satisfaction_score"
     [("mean"%string, RNum 5)] init).1 = Raise DatabaseError.
Proof.
  assert (Forall (fun kv : string * rule_value => supported kv.1 = false)
            [("mean"%string, RNum 5)]) as H.
  { repeat constructor. }
  split; [exact H|].
  exact (accuracy_without_supported_rule_raises example_db 1000 _ _ _ init H).
Defined.

(** The part of C10 that holds: dropping the unsupported keys from the
    mapping changes neither whether the check returns nor its counts and
    verdict. *)
Theorem accuracy_ignores_unsupported_rules db now tbl col (rules : validation_rules) s :
  let kept := filter (fun kv => supported kv.1 = true) rules in
  match (check_accuracy db now tbl col rules s).1,
        (check_accuracy db now tbl col kept s).1 with
  | Ok r, Ok r' =>
      passed r = passed r' /\ error_count r = error_count r' /\
      total_count r = total_count r'
  | Raise e, Raise e' => e = e'
  | _, _ => False
  end.
Proof.
  intros kept. pose proof (validation_conditions_filter col rules) as Hf.
  fold kept in Hf. unfold check_accuracy, with_cursor, connect. rewrite <- Hf.
  destruct (accepting db); [|done].
  unfold try_finally, try_except, mbind, M_bind, bind, query2, lift, log, modify.
  cbv beta iota.
  destruct (validation_conditions col rules) as [conds|e]; [|done].
  destruct (execute db now (SelectCountWhen tbl conds)) as [row|e]; [|done].
  destruct (unpack2 row) as [[total good]|e]; done.
Qed.

End quality_checks.

(** ** The load pipeline *)

Section load_pipeline.

Import etl_processes.

Lemma no_years_attribute : timedelta_dt "years" = Raise AttributeError.
Proof. reflexivity. Qed.

Lemma days_attribute : is_ok (timedelta_dt "days") = true.
Proof. reflexivity. Qed.

(** C6 fails on the code.  Whatever the batch, [transform_customers] asks
    the [.dt] accessor of a column of time differences for [years], which
    it does not have: the function logs the error and raises
    [AttributeError]; no batch is returned. *)
Theorem transform_customers_raises now df w :
  transform_customers now df w =
  (Raise AttributeError,
   {| logged := logged w ++ [ERROR (TransformCustomersError AttributeError)];
      committed := committed w;
      pending := pending w |}).
Proof.
  unfold transform_customers, try_except, mbind, M_bind, bind.
  rewrite no_years_attribute. reflexivity.
Qed.

Section loader.
Context {A : Type}.
Variable db : DatabaseConnection.
Variable ok : tables -> A -> bool.
Variable up : A -> tables -> tables.
Variable exec : A -> M world unit.
Hypothesis exec_spec : forall r w,
  exec r w =
    if ok (view w) r
    then (Ok tt, {| logged := logged w; committed := committed w;
                    pending := Some (up r (view w)) |})
    else (Raise DatabaseError, w).

Lemma for_each_exec df w :
  exists w',
    for_each df exec w =
      (match apply_batch ok up df (view w) with
       | Some _ => Ok tt
       | None => Raise DatabaseError
       end, w') /\
    logged w' = logged w /\
    committed w' = committed w /\
    forall tb, apply_batch ok up df (view w) = Some tb -> view w' = tb.
Proof.
  revert w. induction df as [|r df IH]; intros w.
  - exists w. simpl. split_and!; try done. by intros tb [= <-].
  - simpl. unfold bind. rewrite exec_spec.
    destruct (ok (view w) r); [|by exists w].
    set (w0 := {| logged := logged w; committed := committed w;
                  pending := Some (up r (view w)) |}).
    destruct (IH w0) as (w' & Hrun & Hl & Hc & Hv).
    change (view w0) with (up r (view w)) in *.
    exists w'. rewrite Hrun. by destruct (apply_batch ok up df (up r (view w))).
Qed.

Lemma load_spec loaded failed df w :
  exists w',
    load db exec loaded failed df w =
      (if accepting db
       then match apply_batch ok up df (committed w) with
            | Some _ => Ok tt
            | None => Raise DatabaseError
            end
       else Raise UnboundLocalError, w') /\
    pending w' = (if accepting db then None else pending w) /\
    committed w' =
      (if accepting db
       then match apply_batch ok up df (committed w) with
            | Some tb => tb
            | None => committed w
            end
       else committed w).
Proof.
  unfold load, connect. destruct (accepting db); simpl.
  - unfold try_finally, try_except, mbind, M_bind, bind.
    set (w0 := {| logged := logged w ++ [INFO Connected];
                  committed := committed w; pending := None |}).
    destruct (for_each_exec df w0) as (w1 & Hrun & Hl & Hc & Hv).
    change (view w0) with (committed w) in *.
    rewrite Hrun.
    destruct (apply_batch ok up df (committed w)) as [tb|]; simpl.
    + eexists. split_and!; try done. simpl. by apply Hv.
    + eexists. split_and!; try done.
  - eexists. split_and!; try done.
Qed.
End loader.

Section upsert_laws.
Context {A I Mu : Type}.
Variable updated : A -> A -> A.
Variable key : A -> Z.
Variable immutable : A -> I.
Variable mutable : A -> Mu.
Variable default : option Z.
Variable now : Z.
Hypothesis updated_immutable : forall old r, immutable (updated old r) = immutable old.
Hypothesis updated_mutable : forall old r, mutable (updated old r) = mutable r.

Local Abbreviation put := (upsert updated default now).
Local Abbreviation put_all := (upsert_all updated key default now).

Lemma upsert_lookup k r (t : gmap Z (staged A)) :
  put k r t !! k =
    Some (match t !! k with
          | None => {| cols := r; last_updated := default |}
          | Some old => {| cols := updated (cols old) r; last_updated := Some now |}
          end).
Proof. unfold upsert. destruct (t !! k); by rewrite lookup_insert_eq. Qed.

Lemma upsert_lookup_ne k k' r (t : gmap Z (staged A)) :
  k ≠ k' -> put k r t !! k' = t !! k'.
Proof. intros Hne. unfold upsert. destruct (t !! k); by rewrite lookup_insert_ne. Qed.

Lemma upsert_all_app df df' (t : gmap Z (staged A)) :
  put_all (df ++ df') t = put_all df' (put_all df t).
Proof. apply foldl_app. Qed.

Lemma upsert_all_untouched k df (t : gmap Z (staged A)) :
  Forall (fun x => key x ≠ k) df -> put_all df t !! k = t !! k.
Proof.
  intros H. revert t. induction H as [|r df Hr _ IH]; intros t; [done|].
  simpl. rewrite IH. by apply upsert_lookup_ne.
Qed.

Lemma upsert_all_keeps k df (t : gmap Z (staged A)) old :
  t !! k = Some old ->
  exists st, put_all df t !! k = Some st /\
             immutable (cols st) = immutable (cols old).
Proof.
  revert t old. induction df as [|r df IH]; intros t old Hk.
  - exists old. done.
  - simpl. destruct (decide (key r = k)) as [<-|Hne].
    + edestruct (IH (put (key r) r t)) as (st & Hst & Hi).
      { rewrite upsert_lookup, Hk. reflexivity. }
      exists st. split; [done|]. rewrite Hi. simpl. apply updated_immutable.
    + apply IH. by rewrite upsert_lookup_ne.
Qed.

Lemma upsert_all_stays k df (t : gmap Z (staged A)) :
  is_Some (t !! k) -> is_Some (put_all df t !! k).
Proof.
  revert t. induction df as [|r df IH]; intros t Hk; [done|].
  simpl. apply IH. destruct (decide (key r = k)) as [<-|Hne].
  - rewrite upsert_lookup. eauto.
  - by rewrite upsert_lookup_ne.
Qed.

Lemma upsert_all_last k r df (t : gmap Z (staged A)) :
  is_Some (t !! k) -> last_with key k r df ->
  exists st, put_all df t !! k = Some st /\
             mutable (cols st) = mutable r /\ last_updated st = Some now.
Proof.
  intros [old Hold] (pre & post & -> & Hk & Hpost).
  rewrite upsert_all_app. simpl. rewrite upsert_all_untouched by done.
  destruct (upsert_all_stays k pre t (mk_is_Some _ _ Hold)) as (st & Hst).
  rewrite Hk, upsert_lookup, Hst. eexists. split; [done|]. simpl.
  split; [apply updated_mutable|done].
Qed.

Lemma upsert_all_first k r df (t : gmap Z (staged A)) :
  t !! k = None -> first_with key k r df ->
  exists st, put_all df t !! k = Some st /\ immutable (cols st) = immutable r.
Proof.
  intros Hnone (pre & post & -> & Hk & Hpre).
  rewrite upsert_all_app. simpl.
  apply (upsert_all_keeps k post _ {| cols := r; last_updated := default |}).
  by rewrite Hk, upsert_lookup, upsert_all_untouched, Hnone.
Qed.

Lemma upsert_all_present r df (t : gmap Z (staged A)) :
  r ∈ df -> is_Some (put_all df t !! key r).
Proof.
  intros Hin. apply list_elem_of_split in Hin as (pre & post & ->).
  rewrite upsert_all_app. simpl. apply upsert_all_stays.
  rewrite upsert_lookup. eauto.
Qed.
End upsert_laws.

Lemma transaction_batch_tables db now df tb tb' :
  transaction_batch db now df tb = Some tb' ->
  transactions tb' =
    upsert_all Transaction.updated Transaction.key (last_updated_default db now) now
      df (transactions tb) /\
  customers tb' = customers tb.
Proof.
  unfold transaction_batch. revert tb. induction df as [|r df IH]; intros tb; simpl.
  - by intros [= <-].
  - destruct (transaction_ok db tb r); [|done]. intros H. by apply IH in H.
Qed.

Lemma customer_batch_tables db now df tb tb' :
  customer_batch db now df tb = Some tb' ->
  customers tb' =
    upsert_all Customer.updated Customer.key (last_updated_default db now) now
      df (customers tb) /\
  transactions tb' = transactions tb.
Proof.
  unfold customer_batch. revert tb. induction df as [|r df IH]; intros tb; simpl.
  - by intros [= <-].
  - destruct (customer_ok db tb r); [|done]. intros H. by apply IH in H.
Qed.

Lemma load_transactions_spec db now df w :
  exists w',
    load_transactions db now df w =
      (if accepting db
       then match transaction_batch db now df (committed w) with
            | Some _ => Ok tt
            | None => Raise DatabaseError
            end
       else Raise UnboundLocalError, w') /\
    pending w' = (if accepting db then None else pending w) /\
    committed w' =
      (if accepting db
       then match transaction_batch db now df (committed w) with
            | Some tb => tb
            | None => committed w
            end
       else committed w).
Proof. by apply load_spec. Qed.

Lemma load_customers_spec db now df w :
  exists w',
    load_customers db now df w =
      (if accepting db
       then match customer_batch db now df (committed w) with
            | Some _ => Ok tt
            | None => Raise DatabaseError
            end
       else Raise UnboundLocalError, w') /\
    pending w' = (if accepting db then None else pending w) /\
    committed w' =
      (if accepting db
       then match customer_batch db now df (committed w) with
            | Some tb => tb
            | None => committed w
            end
       else committed w).
Proof. by apply load_spec. Qed.

(** C7.  Both loaders are all or nothing.  When the server is reachable
    and accepts every row in turn, the loader returns and the staging area
    holds the whole batch, every key of the batch present; when a row is
    rejected, or the server cannot be reached, the loader raises and the
    committed staging area is what it was before the call. *)
Theorem load_commits_all_or_nothing db now w :
  (forall df,
     (load_transactions db now df w).1 =
       (if accepting db
        then match transaction_batch db now df (committed w) with
             | Some _ => Ok tt
             | None => Raise DatabaseError
             end
        else Raise UnboundLocalError) /\
     committed (load_transactions db now df w).2 =
       (if accepting db
        then match transaction_batch db now df (committed w) with
             | Some tb => tb
             | None => committed w
             end
        else committed w) /\
     match transaction_batch db now df (committed w) with
     | Some tb => Forall (fun r => is_Some (transactions tb !! Transaction.key r)) df
     | None => True
     end) /\
  (forall df,
     (load_customers db now df w).1 =
       (if accepting db
        then match customer_batch db now df (committed w) with
             | Some _ => Ok tt
             | None => Raise DatabaseError
             end
        else Raise UnboundLocalError) /\
     committed (load_customers db now df w).2 =
       (if accepting db
        then match customer_batch db now df (committed w) with
             | Some tb => tb
             | None => committed w
             end
        else committed w) /\
     match customer_batch db now df (committed w) with
     | Some tb => Forall (fun r => is_Some (customers tb !! Customer.key r)) df
     | None => True
     end).
Proof.
  split; intros df.
  - destruct (load_transactions_spec db now df w) as (w' & -> & _ & Hc).
    split_and!; try done.
    destruct (transaction_batch db now df (committed w)) as [tb|] eqn:E; [|done].
    apply Forall_forall. intros r Hr. apply transaction_batch_tables in E as [-> _].
    by apply upsert_all_present.
  - destruct (load_customers_spec db now df w) as (w' & -> & _ & Hc).
    split_and!; try done.
    destruct (customer_batch db now df (committed w)) as [tb|] eqn:E; [|done].
    apply Forall_forall. intros r Hr. apply customer_batch_tables in E as [-> _].
    by apply upsert_all_present.
Qed.

Lemma customer_pipeline_keeps_transactions db src now w :
  transactions (committed (customer_pipeline db src now w).2)
  = transactions (committed w).
Proof.
  unfold customer_pipeline, extract_customers, mbind, M_bind, bind, try_except, lift.
  destruct (customers_feed src) as [df|e]; reflexivity.
Qed.

(** C3, as the code has it.  [run_daily_etl] runs the transaction
    sub-pipeline and then the customer sub-pipeline inside one [try].  When
    the first raises, the run logs that error and re-raises it from the
    state the first left: nothing of the customer sub-pipeline is
    executed.  When the second raises, the run re-raises as well, and what
    the first committed to [staging.transactions] stays. *)
Theorem transaction_failure_stops_the_run db src now w :
  match transaction_pipeline db src now (log (INFO Starting) w).2 with
  | (Raise e, w1) =>
      run_daily_etl db src now w = (Raise e, (log (ERROR (EtlError e)) w1).2)
  | (Ok _, w1) =>
      match customer_pipeline db src now w1 with
      | (Raise e, w2) =>
          run_daily_etl db src now w = (Raise e, (log (ERROR (EtlError e)) w2).2) /\
          transactions (committed w2) = transactions (committed w1)
      | (Ok _, w2) =>
          run_daily_etl db src now w = (Ok tt, (log (INFO Completed) w2).2)
      end
  end.
Proof.
  pose proof (customer_pipeline_keeps_transactions db src now) as Hkeep.
  unfold run_daily_etl, transaction_pipeline, customer_pipeline in *.
  unfold try_except, mbind, M_bind, bind in *.
  set (w0 := (log (INFO Starting) w).2). change (log (INFO Starting) w) with (Ok tt, w0).
  cbv beta iota.
  destruct (extract_transactions src (now - 86400) now w0) as [[tdf|e] w1]; [|done].
  destruct (transform_transactions tdf w1) as [[ttdf|e] w2]; [|done].
  destruct (load_transactions db now ttdf w2) as [[[]|e] w3]; [|done].
  specialize (Hkeep w3).
  destruct (extract_customers src w3) as [[cdf|e] w4]; [|done].
  destruct (transform_customers now cdf w4) as [[tcdf|e] w5]; [|done].
  destruct (load_customers db now tcdf w5) as [[[]|e] w6]; done.
Qed.

(** C3 fails as stated.  With a server that rejects the transaction rows,
    the run raises after the failed load; the log shows that no stage of
    the customer sub-pipeline ran, and nothing was stored. *)
Lemma rejected_transaction_blocks_customers :
  run_daily_etl rejecting_db sample_source 1700000000 empty_world =
  (Raise DatabaseError,
   {| logged := [INFO Starting;
                 INFO (ExtractedTransactions 1);
                 INFO (TransformedTransactions 1);
                 INFO Connected;
                 ERROR (LoadTransactionsError DatabaseError);
                 ERROR (EtlError DatabaseError)];
      committed := {| transactions := ∅; customers := ∅ |};
      pending := None |}).
Proof. vm_compute. reflexivity. Qed.

Lemma load_transactions_returns db now df w w' :
  load_transactions db now df w = (Ok tt, w') ->
  transactions (committed w') =
    upsert_all Transaction.updated Transaction.key (last_updated_default db now) now
      df (transactions (committed w)).
Proof.
  intros H. destruct (load_transactions_spec db now df w) as (w1 & Hrun & _ & Hc).
  rewrite H in Hrun. destruct (accepting db); [|by inversion Hrun].
  destruct (transaction_batch db now df (committed w)) as [tb|] eqn:E;
    [|by inversion Hrun].
  inversion Hrun; subst w1. rewrite Hc. by apply transaction_batch_tables in E as [-> _].
Qed.

Lemma load_customers_returns db now df w w' :
  load_customers db now df w = (Ok tt, w') ->
  customers (committed w') =
    upsert_all Customer.updated Customer.key (last_updated_default db now) now
      df (customers (committed w)).
Proof.
  intros H. destruct (load_customers_spec db now df w) as (w1 & Hrun & _ & Hc).
  rewrite H in Hrun. destruct (accepting db); [|by inversion Hrun].
  destruct (customer_batch db now df (committed w)) as [tb|] eqn:E;
    [|by inversion Hrun].
  inversion Hrun; subst w1. rewrite Hc. by apply customer_batch_tables in E as [-> _].
Qed.

Section reload.
Context {A I Mu : Type}.
Variable updated : A -> A -> A.
Variable key : A -> Z.
Variable immutable : A -> I.
Variable mutable : A -> Mu.
Hypothesis updated_immutable : forall old r, immutable (updated old r) = immutable old.
Hypothesis updated_mutable : forall old r, mutable (updated old r) = mutable r.

Lemma reload_lookup default1 default2 now1 now2 b1 b2 (t : gmap Z (staged A)) k r1 r2 :
  first_with key k r1 b1 ->
  last_with key k r2 b2 ->
  let t1 := upsert_all updated key default1 now1 b1 t in
  let t2 := upsert_all updated key default2 now2 b2 t1 in
  exists st1 st2,
    t1 !! k = Some st1 /\ t2 !! k = Some st2 /\
    mutable (cols st2) = mutable r2 /\
    last_updated st2 = Some now2 /\
    immutable (cols st2) = immutable (cols st1) /\
    immutable (cols st2) =
      match t !! k with
      | Some old => immutable (cols old)
      | None => immutable r1
      end.
Proof.
  intros Hfirst Hlast t1 t2.
  assert (is_Some (t1 !! k)) as [st1 Hst1].
  { destruct Hfirst as (pre & post & Hb1 & <- & _).
    apply upsert_all_present. rewrite Hb1. set_solver. }
  destruct (upsert_all_last updated key mutable default2 now2 updated_mutable
              k r2 b2 t1 (mk_is_Some _ _ Hst1) Hlast) as (st2 & Hst2 & Hm & Hl).
  destruct (upsert_all_keeps updated key immutable default2 now2 updated_immutable
              k b2 t1 st1 Hst1) as (st2' & Hst2' & Hi).
  fold t2 in Hst2, Hst2'. rewrite Hst2 in Hst2'. injection Hst2' as <-.
  exists st1, st2. split_and!; try done.
  destruct (t !! k) as [old|] eqn:Hk.
  - destruct (upsert_all_keeps updated key immutable default1 now1 updated_immutable
                k b1 t old Hk) as (st1' & Hst1' & Hi1).
    fold t1 in Hst1'. rewrite Hst1 in Hst1'. injection Hst1' as <-. congruence.
  - destruct (upsert_all_first updated key immutable default1 now1 updated_immutable
                k r1 b1 t Hk Hfirst) as (st1' & Hst1' & Hi1).
    fold t1 in Hst1'. rewrite Hst1 in Hst1'. injection Hst1' as <-. congruence.
Qed.
End reload.

(** C1, as the code has it.  Load a batch and then load a batch again,
    both loads returning, into a staging area that may already hold rows.
    For a key [k] whose first row in the first batch is [r1] and whose last
    row in the second batch is [r2], the row stored under [k] after the
    second load has the mutable columns of [r2] and the second load's
    timestamp as [last_updated].  Its immutable columns are those stored
    after the first load, untouched by the conflict: the columns already
    stored under [k] before the first load when there was such a row, and
    the columns of [r1] only when [k] was new.  This holds for
    [load_transactions], whose mutable column is [status], and for
    [load_customers], whose mutable columns are [last_interaction_date],
    [satisfaction_score], [nps_score] and [status]. *)
Theorem reload_overwrites_mutable_keeps_immutable db now1 now2 w :
  (forall b1 b2 w1 w2 k r1 r2,
     load_transactions db now1 b1 w = (Ok tt, w1) ->
     load_transactions db now2 b2 w1 = (Ok tt, w2) ->
     first_with Transaction.key k r1 b1 ->
     last_with Transaction.key k r2 b2 ->
     exists st1 st2,
       transactions (committed w1) !! k = Some st1 /\
       transactions (committed w2) !! k = Some st2 /\
       Transaction.mutable (cols st2) = Transaction.mutable r2 /\
       last_updated st2 = Some now2 /\
       Transaction.immutable (cols st2) = Transaction.immutable (cols st1) /\
       Transaction.immutable (cols st2) =
         match transactions (committed w) !! k with
         | Some old => Transaction.immutable (cols old)
         | None => Transaction.immutable r1
         end) /\
  (forall b1 b2 w1 w2 k r1 r2,
     load_customers db now1 b1 w = (Ok tt, w1) ->
     load_customers db now2 b2 w1 = (Ok tt, w2) ->
     first_with Customer.key k r1 b1 ->
     last_with Customer.key k r2 b2 ->
     exists st1 st2,
       customers (committed w1) !! k = Some st1 /\
       customers (committed w2) !! k = Some st2 /\
       Customer.mutable (cols st2) = Customer.mutable r2 /\
       last_updated st2 = Some now2 /\
       Customer.immutable (cols st2) = Customer.immutable (cols st1) /\
       Customer.immutable (cols st2) =
         match customers (committed w) !! k with
         | Some old => Customer.immutable (cols old)
         | None => Customer.immutable r1
         end).
Proof.
  split; intros b1 b2 w1 w2 k r1 r2 H1 H2 Hfirst Hlast.
  - apply load_transactions_returns in H1, H2. rewrite H2, H1.
    by apply (reload_lookup Transaction.updated Transaction.key
                Transaction.immutable Transaction.mutable).
  - apply load_customers_returns in H1, H2. rewrite H2, H1.
    by apply (reload_lookup Customer.updated Customer.key
                Customer.immutable Customer.mutable).
Qed.

(** C1 fails as stated.  The staging area holds transaction 10 with
    amount 777 and customer 1 named Grace.  A batch with transaction 10 at
    amount 5, resp. customer 1 named Ada, is loaded and loaded again; both
    loads return.  The stored rows keep amount 777 and the name Grace: the
    immutable columns are not those of the batch, while status and the
    other mutable columns are. *)
Lemma stocked_row_keeps_its_immutable_columns :
  (exists w1 w2 st,
     load_transactions accepting_db 1 [sample_loaded_transaction] stocked_world = (Ok tt, w1) /\
     load_transactions accepting_db 2 [sample_loaded_transaction] w1 = (Ok tt, w2) /\
     transactions (committed w2) !! 10 = Some st /\
     Transaction.mutable (cols st) = Transaction.mutable sample_loaded_transaction /\
     Transaction.amount (Transaction.raw (cols st)) = 777%Q /\
     Transaction.amount (Transaction.raw sample_loaded_transaction) = 5%Q /\
     Transaction.immutable (cols st) ≠ Transaction.immutable sample_loaded_transaction) /\
  (exists w1 w2 st,
     load_customers accepting_db 1 [sample_loaded_customer] stocked_world = (Ok tt, w1) /\
     load_customers accepting_db 2 [sample_loaded_customer] w1 = (Ok tt, w2) /\
     customers (committed w2) !! 1 = Some st /\
     Customer.mutable (cols st) = Customer.mutable sample_loaded_customer /\
     Customer.first_name (Customer.raw (cols st)) = "Grace"%string /\
     Customer.first_name (Customer.raw sample_loaded_customer) = "Ada"%string /\
     Customer.immutable (cols st) ≠ Customer.immutable sample_loaded_customer).
Proof.
  split.
  - eexists _, _, _. split_and!; [vm_compute; reflexivity..|].
    vm_compute. intros H. discriminate H.
  - eexists _, _, _. split_and!; [vm_compute; reflexivity..|].
    vm_compute. intros H. discriminate H.
Qed.

Lemma first_with_singleton {A} (key : A -> Z) r : first_with key (key r) r [r].
Proof. exists [], []. split_and!; [done|done|constructor]. Qed.

Lemma last_with_singleton {A} (key : A -> Z) r : last_with key (key r) r [r].
Proof. exists [], []. split_and!; [done|done|constructor]. Qed.

(** One transaction loaded twice over the row already stored under its
    key, and one customer loaded twice into an empty staging area. *)
Lemma reload_overwrites_mutable_keeps_immutable_witness :
  (exists w1 w2 st1 st2,
     load_transactions accepting_db 1 [sample_loaded_transaction] stocked_world = (Ok tt, w1) /\
     load_transactions accepting_db 2 [sample_loaded_transaction] w1 = (Ok tt, w2) /\
     transactions (committed w1) !! 10 = Some st1 /\
     transactions (committed w2) !! 10 = Some st2 /\
     Transaction.mutable (cols st2) = Transaction.mutable sample_loaded_transaction /\
     last_updated st2 = Some 2 /\
     Transaction.immutable (cols st2) = Transaction.immutable (cols st1) /\
     Transaction.immutable (cols st2) = Transaction.immutable stocked_transaction) /\
  (exists w1 w2 st1 st2,
     load_customers accepting_db 1 [sample_loaded_customer] empty_world = (Ok tt, w1) /\
     load_customers accepting_db 2 [sample_loaded_customer] w1 = (Ok tt, w2) /\
     customers (committed w1) !! 1 = Some st1 /\
     customers (committed w2) !! 1 = Some st2 /\
     Customer.mutable (cols st2) = Customer.mutable sample_loaded_customer /\
     last_updated st2 = Some 2 /\
     Customer.immutable (cols st2) = Customer.immutable (cols st1) /\
     Customer.immutable (cols st2) = Customer.immutable sample_loaded_customer).
Proof.
  split.
  - assert (load_transactions accepting_db 1 [sample_loaded_transaction] stocked_world
            = (Ok tt, (load_transactions accepting_db 1 [sample_loaded_transaction] stocked_world).2))
      as H1 by (vm_compute; reflexivity).
    assert (load_transactions accepting_db 2 [sample_loaded_transaction]
              (load_transactions accepting_db 1 [sample_loaded_transaction] stocked_world).2
            = (Ok tt, (load_transactions accepting_db 2 [sample_loaded_transaction]
                 (load_transactions accepting_db 1 [sample_loaded_transaction] stocked_world).2).2))
      as H2 by (vm_compute; reflexivity).
    destruct (proj1 (reload_overwrites_mutable_keeps_immutable accepting_db 1 2 stocked_world)
                _ _ _ _ 10 _ _ H1 H2
                (first_with_singleton Transaction.key sample_loaded_transaction)
                (last_with_singleton Transaction.key sample_loaded_transaction))
      as (st1 & st2 & Hs1 & Hs2 & Hm & Hl & Hi & Hf).
    eexists _, _, st1, st2. split_and!; try done.
  - assert (load_customers accepting_db 1 [sample_loaded_customer] empty_world
            = (Ok tt, (load_customers accepting_db 1 [sample_loaded_customer] empty_world).2))
      as H1 by (vm_compute; reflexivity).
    assert (load_customers accepting_db 2 [sample_loaded_customer]
              (load_customers accepting_db 1 [sample_loaded_customer] empty_world).2
            = (Ok tt, (load_customers accepting_db 2 [sample_loaded_customer]
                 (load_customers accepting_db 1 [sample_loaded_customer] empty_world).2).2))
      as H2 by (vm_compute; reflexivity).
    destruct (proj2 (reload_overwrites_mutable_keeps_immutable accepting_db 1 2 empty_world)
                _ _ _ _ 1 _ _ H1 H2
                (first_with_singleton Customer.key sample_loaded_customer)
                (last_with_singleton Customer.key sample_loaded_customer))
      as (st1 & st2 & Hs1 & Hs2 & Hm & Hl & Hi & Hf).
    eexists _, _, st1, st2. split_and!; try done.
Defined.

End load_pipeline.

(** ** What the counts of a check mean *)

Section check_semantics.

Import data_quality.

Lemma percentage_range part total :
  0 <= part <= total -> (0 <= percentage part total <= 100)%Q.
Proof.
  intros [Hp Ht]. destruct (Z.eq_dec total 0) as [->|Hne].
  { rewrite percentage_zero_total. split; [apply Qle_refl|done]. }
  rewrite percentage_pct by lia. split.
  - apply round_nonneg.
  - assert (pct (inject_Z 1 / inject_Z 1) == 100)%Q as H1 by (by vm_compute).
    rewrite <- H1. apply pct_mono. apply quotient_le; lia.
Qed.

Lemma orphaned_bounds ts rs col rcol :
  0 <= orphaned ts rs col rcol <= Z.of_nat (length ts).
Proof.
  induction ts as [|t ts IH]; [done|].
  rewrite orphaned_cons. unfold dangling. simpl length.
  case_bool_decide as Hn; [rewrite Hn|]; repeat case_match; lia.
Qed.

Lemma call_counts db now c s r s' :
  call db now c s = (Ok r, s') -> 0 <= error_count r <= total_count r.
Proof.
  destruct c; simpl; intros H; apply with_cursor_returns in H as [_ H];
    unfold mbind, M_bind, bind in H.
  - destruct (query2 _ _ _ _) as [[[total good]|] s1] eqn:E; [|discriminate].
    apply query2_returns in E as [-> E]. simpl in H. inversion H; subst; simpl. lia.
  - destruct (lift _ _) as [[conds|] s0]; [|discriminate].
    destruct (query2 _ _ _ _) as [[[total good]|] s1] eqn:E; [|discriminate].
    apply query2_returns in E as [-> E]. simpl in H. inversion H; subst; simpl. lia.
  - destruct (query1 _ _ _ _) as [[orphans|] s0] eqn:E0; [|discriminate].
    destruct (query1 _ _ _ s0) as [[total|] s1] eqn:E; [|discriminate].
    simpl in H. inversion H; subst; simpl. clear H.
    unfold query1, lift in E0, E. simpl in E0, E.
    repeat case_match; simplify_eq; simpl in *; simplify_eq.
    apply orphaned_bounds.
  - match type of H with
    | match ?m ?s with _ => _ end = _ => destruct (m s) as [[stmt|] s0]; [|discriminate]
    end.
    destruct (query2 _ _ _ _) as [[[total good]|] s1] eqn:E; [|discriminate].
    apply query2_returns in E as [-> E]. simpl in H. inversion H; subst; simpl. lia.
  - destruct (query2 _ _ _ _) as [[[total good]|] s1] eqn:E; [|discriminate].
    apply query2_returns in E as [-> E]. simpl in H. inversion H; subst; simpl. lia.
Qed.

(** X1.  Whatever check returns, its counts are consistent: [error_count]
    lies between 0 and [total_count], the percentage the result carries in
    [details] lies between 0 and 100, and so does the [error_rate] that
    [generate_quality_report] computes from the two counts. *)
Theorem counts_and_rates_stay_in_range db now c s r s' :
  call db now c s = (Ok r, s') ->
  0 <= error_count r <= total_count r /\
  (exists q, headline r = Some q /\ (0 <= q <= 100)%Q) /\
  (0 <= d_error_rate (detail_of r) <= 100)%Q.
Proof.
  intros H. pose proof (call_counts _ _ _ _ _ _ H) as Hb.
  apply call_returns in H as (total & good & _ & _ & Htot & Herr & _ & Hh).
  split; [lia|]. split; [|by apply percentage_range].
  exists (percentage good total). split; [done|]. apply percentage_range. lia.
Qed.

(** The consistency check of [core.transaction.customer_id] on the small
    warehouse: one orphan out of two rows. *)
Lemma counts_and_rates_stay_in_range_witness :
  exists r s',
    call example_db 1000
      (Consistency "core.transaction" "customer_id" "core.customer" "customer_id")
      init = (Ok r, s') /\
    0 <= error_count r <= total_count r /\
    (exists q, headline r = Some q /\ (0 <= q <= 100)%Q) /\
    (0 <= d_error_rate (detail_of r) <= 100)%Q.
Proof.
  eexists _, _. split.
  - vm_compute. reflexivity.
  - eapply (counts_and_rates_stay_in_range example_db 1000
              (Consistency "core.transaction" "customer_id" "core.customer" "customer_id")
              init).
    vm_compute. reflexivity.
Defined.

(** X2.  A check reads the database and writes the log, nothing else: it
    leaves [self.results] and the report file as they are, and what it
    returns or raises does not depend on the checks run before it. *)
Theorem a_check_leaves_the_results_alone db now c s :
  (call db now c s).1 = outcome db now c /\
  results (call db now c s).2 = results s /\
  quality_report_json (call db now c s).2 = quality_report_json s.
Proof. by rewrite (log_only_call db now c s). Qed.

Lemma length_filter_split {A} (P : A -> bool) (l : list A) :
  Z.of_nat (length l) =
  Z.of_nat (length (filter (fun x => P x = true) l)) +
  Z.of_nat (length (filter (fun x => P x = false) l)).
Proof.
  induction l as [|x l IH]; [done|].
  rewrite !filter_cons. destruct (P x); repeat case_decide; try done; simpl length; lia.
Qed.

(** X3.  With the report file writable, [generate_quality_report] returns
    and writes the report of [self.results], which it leaves unchanged:
    [total_checks] is their number, [passed_checks] and [failed_checks] add
    up to it, and [check_details] lists the results in order, one entry
    each, with the verdict of each. *)
Theorem report_counts_add_up now s :
  exists s' rep,
    generate_quality_report now s = (Ok tt, s') /\
    results s' = results s /\
    quality_report_json s' = Some rep /\
    total_checks rep = Z.of_nat (length (results s)) /\
    passed_checks rep + failed_checks rep = total_checks rep /\
    0 <= passed_checks rep /\ 0 <= failed_checks rep /\
    map d_passed (check_details rep) = map passed (results s) /\
    map d_column_name (check_details rep) = map column_name (results s).
Proof.
  eexists _, (report_of now (results s)). split; [reflexivity|].
  split; [reflexivity|]. split; [reflexivity|]. unfold report_of. simpl.
  split_and!; [done| |lia|lia|by rewrite map_map|by rewrite map_map].
  symmetry. apply (length_filter_split passed).
Qed.

Lemma count_when_filter db now rs conds (P : gmap string value -> bool) :
  (forall r, r ∈ rs ->
     exists b, conjunction db now r conds = Ok b /\ (b = Some true <-> P r = true)) ->
  count_when db now rs conds = Ok (Z.of_nat (length (filter (fun r => P r = true) rs))).
Proof.
  induction rs as [|r rs IH]; intros H; [done|].
  simpl. destruct (H r) as (b & Hc & Hb); [by constructor|]. rewrite Hc.
  rewrite IH by (intros r' Hr'; apply H; by constructor).
  rewrite filter_cons. f_equal. case_bool_decide as Hd; case_decide as Hp; simpl length; try lia.
  - by apply Hb in Hd.
  - by apply Hb in Hp.
Qed.

Lemma non_null_complement (l : list (gmap string value)) col :
  Z.of_nat (length l) - count_non_null l col =
  Z.of_nat (length (filter (fun row => is_null col row = true) l)).
Proof.
  unfold count_non_null. induction l as [|row l IH]; [done|].
  rewrite !filter_cons. case_decide as H1; case_decide as H2; simpl length; try lia; exfalso.
  - unfold is_null in H2. apply bool_decide_eq_true in H2. rewrite H2 in H1.
    by apply is_Some_None in H1.
  - apply H2. unfold is_null. apply bool_decide_eq_true. by apply eq_None_not_Some.
Qed.

(** X4.  When [check_completeness] returns, [total_count] is the number of
    rows of the table and [error_count] the number of rows in which the
    column is NULL. *)
Theorem completeness_counts_nulls db now tbl col s r s' t :
  check_completeness db now tbl col s = (Ok r, s') ->
  relations db !! tbl = Some t ->
  total_count r = Z.of_nat (length (rows t)) /\
  error_count r = Z.of_nat (length (filter (fun row => is_null col row = true) (rows t))).
Proof.
  intros H Ht. apply with_cursor_returns in H as [_ H].
  unfold mbind, M_bind, bind in H.
  destruct (query2 _ _ _ _) as [[[total good]|] s1] eqn:E; [|discriminate].
  simpl in H. inversion H; subst; simpl. clear H.
  unfold query2, lift in E. simpl in E. rewrite Ht in E.
  case_bool_decide; [|discriminate]. simpl in E. inversion E; subst. split; [done|].
  apply non_null_complement.
Qed.

(** The one customer of the small warehouse has no phone. *)
Lemma completeness_counts_nulls_witness :
  exists r s',
    check_completeness example_db 1000 "core.customer" "phone" init = (Ok r, s') /\
    relations example_db !! "core.customer"%string = Some customer_table /\
    total_count r = 1 /\ error_count r = 1.
Proof.
  destruct (check_completeness example_db 1000 "core.customer" "phone" init)
    as [[r|e] s'] eqn:E; [|vm_compute in E; discriminate E].
  assert (relations example_db !! "core.customer"%string = Some customer_table) as Ht
    by (vm_compute; reflexivity).
  destruct (completeness_counts_nulls example_db 1000 "core.customer" "phone" init
              r s' customer_table E Ht) as [Htot Herr].
  exists r, s'. split_and!; [done|done|by rewrite Htot|by rewrite Herr].
Defined.

Lemma unpack2_pair row total good :
  unpack2 row = Ok (total, good) -> row = [total; good].
Proof. destruct row as [|a [|b [|c row]]]; simpl; congruence. Qed.

Lemma check_accuracy_executes db now tbl col rules s r s' :
  check_accuracy db now tbl col rules s = (Ok r, s') ->
  exists conds total valid,
    validation_conditions col rules = Ok conds /\
    execute db now (SelectCountWhen tbl conds) = Ok [total; valid] /\
    total_count r = total /\ error_count r = total - valid.
Proof.
  intros H. apply with_cursor_returns in H as [_ H].
  unfold mbind, M_bind, bind, query2, lift in H.
  destruct (validation_conditions col rules) as [conds|]; [|discriminate].
  destruct (execute db now (SelectCountWhen tbl conds)) as [row|] eqn:E; [|discriminate].
  destruct (unpack2 row) as [[total valid]|] eqn:U; [|discriminate].
  apply unpack2_pair in U as ->. inversion H; subst; simpl.
  exists conds, total, valid. done.
Qed.

Lemma check_timeliness_executes db now tbl col hours s r s' :
  check_timeliness db now tbl col hours s = (Ok r, s') ->
  exists total recent,
    execute db now (SelectCountWhen tbl [Recent col hours]) = Ok [total; recent] /\
    total_count r = total /\ error_count r = total - recent.
Proof.
  intros H. apply with_cursor_returns in H as [_ H].
  unfold mbind, M_bind, bind, query2, lift in H.
  destruct (execute db now (SelectCountWhen tbl [Recent col hours])) as [row|] eqn:E;
    [|discriminate].
  destruct (unpack2 row) as [[total valid]|] eqn:U; [|discriminate].
  apply unpack2_pair in U as ->. inversion H; subst; simpl.
  exists total, valid. done.
Qed.

Lemma check_validity_executes db now tbl col data_type s r s' :
  check_validity db now tbl col data_type s = (Ok r, s') ->
  exists cond total valid,
    ((data_type = "numeric"%string /\ cond = MatchesNumeric col) \/
     (data_type = "date"%string /\ cond = CastDateNotNull col)) /\
    execute db now (SelectCountWhen tbl [cond]) = Ok [total; valid] /\
    total_count r = total /\ error_count r = total - valid.
Proof.
  intros H. apply with_cursor_returns in H as [_ H].
  unfold mbind, M_bind, bind, query2, lift in H.
  case_bool_decide as Hn; [|case_bool_decide as Hd];
    unfold mret, M_ret, ret, raise in H; cbv beta iota in H; [| |discriminate].
  - destruct (execute db now (SelectCountWhen tbl [MatchesNumeric col])) as [row|] eqn:E;
      [|discriminate].
    destruct (unpack2 row) as [[total valid]|] eqn:U; [|discriminate].
    apply unpack2_pair in U as ->. inversion H; subst; simpl.
    exists (MatchesNumeric col), total, valid. split_and!; try done. by left.
  - destruct (execute db now (SelectCountWhen tbl [CastDateNotNull col])) as [row|] eqn:E;
      [|discriminate].
    destruct (unpack2 row) as [[total valid]|] eqn:U; [|discriminate].
    apply unpack2_pair in U as ->. inversion H; subst; simpl.
    exists (CastDateNotNull col), total, valid. split_and!; try done. by right.
Qed.

Lemma count_when_executes db now tbl conds total good t :
  execute db now (SelectCountWhen tbl conds) = Ok [total; good] ->
  relations db !! tbl = Some t ->
  total = Z.of_nat (length (rows t)) /\
  count_when db now (rows t) conds = Ok good.
Proof.
  intros E Ht. simpl in E. rewrite Ht in E.
  destruct (negb _ && _); [|discriminate].
  destruct (count_when db now (rows t) conds); [|discriminate].
  by inversion E.
Qed.

(** X5.  When [check_accuracy] returns for the rules [{'min': lo, 'max':
    hi}], [error_count] is the number of rows whose value is not an integer
    between [lo] and [hi]; a row in which the column is NULL counts as an
    error, since neither comparison is true of it. *)
Theorem accuracy_range_counts db now tbl col lo hi s r s' t :
  check_accuracy db now tbl col [("min"%string, RNum lo); ("max"%string, RNum hi)] s
    = (Ok r, s') ->
  relations db !! tbl = Some t ->
  total_count r = Z.of_nat (length (rows t)) /\
  error_count r =
    Z.of_nat (length (filter (fun row => in_range col lo hi row = false) (rows t))).
Proof.
  intros H Ht.
  apply check_accuracy_executes in H as (conds & total & valid & Hc & E & -> & ->).
  simpl in Hc. injection Hc as <-.
  destruct (count_when_executes _ _ _ _ _ _ _ E Ht) as [-> Hw]. split; [done|].
  rewrite (count_when_filter db now (rows t) _ (in_range col lo hi)) in Hw.
  - injection Hw as <-.
    rewrite (length_filter_split (in_range col lo hi) (rows t)). lia.
  - intros row _. simpl. eexists. split; [reflexivity|]. unfold in_range.
    destruct (row !! col) as [[n| |]|]; simpl; try (split; discriminate).
    destruct (lo <=? n), (n <=? hi); simpl; split; congruence.
Qed.

(** Of the scores 5, 11, -1 and 7, two are outside 0..10. *)
Lemma accuracy_range_counts_witness :
  exists r s',
    check_accuracy scores_db 1000 "scores" "score"
      [("min"%string, RNum 0); ("max"%string, RNum 10)] init = (Ok r, s') /\
    relations scores_db !! "scores"%string = Some scores_table /\
    total_count r = 4 /\ error_count r = 2.
Proof.
  destruct (check_accuracy scores_db 1000 "scores" "score"
              [("min"%string, RNum 0); ("max"%string, RNum 10)] init)
    as [[r|e] s'] eqn:E; [|vm_compute in E; discriminate E].
  assert (relations scores_db !! "scores"%string = Some scores_table) as Ht
    by (vm_compute; reflexivity).
  destruct (accuracy_range_counts scores_db 1000 "scores" "score" 0 10 init
              r s' scores_table E Ht) as [Htot Herr].
  exists r, s'. split_and!; [done|done|by rewrite Htot|by rewrite Herr].
Defined.

(** X6.  When [check_timeliness] returns, [error_count] is the number of
    rows whose timestamp is older than [max_age_hours] hours at the time of
    the check, or NULL. *)
Theorem timeliness_counts_old_and_null db now tbl col hours s r s' t :
  check_timeliness db now tbl col hours s = (Ok r, s') ->
  relations db !! tbl = Some t ->
  total_count r = Z.of_nat (length (rows t)) /\
  error_count r =
    Z.of_nat (length (filter (fun row => is_recent col now hours row = false) (rows t))).
Proof.
  intros H Ht.
  apply check_timeliness_executes in H as (total & valid & E & -> & ->).
  destruct (count_when_executes _ _ _ _ _ _ _ E Ht) as [-> Hw]. split; [done|].
  rewrite (count_when_filter db now (rows t) _ (is_recent col now hours)) in Hw.
  - injection Hw as <-.
    rewrite (length_filter_split (is_recent col now hours) (rows t)). lia.
  - intros row _. simpl. eexists. split; [reflexivity|]. unfold is_recent.
    destruct (row !! col) as [[| |ts]|]; simpl; try (split; discriminate).
    destruct (now - hours * 3600 <=? ts); simpl; split; congruence.
Qed.

(** Both transactions of the small warehouse are dated 900; at 100000, a
    day later, both are outdated. *)
Lemma timeliness_counts_old_and_null_witness :
  exists r s',
    check_timeliness example_db 100000 "core.transaction" "transaction_date" 24 init
      = (Ok r, s') /\
    relations example_db !! "core.transaction"%string = Some transaction_table /\
    total_count r = 2 /\ error_count r = 2.
Proof.
  destruct (check_timeliness example_db 100000 "core.transaction" "transaction_date" 24 init)
    as [[r|e] s'] eqn:E; [|vm_compute in E; discriminate E].
  assert (relations example_db !! "core.transaction"%string = Some transaction_table) as Ht
    by (vm_compute; reflexivity).
  destruct (timeliness_counts_old_and_null example_db 100000
              "core.transaction" "transaction_date" 24 init r s' transaction_table E Ht)
    as [Htot Herr].
  exists r, s'. split_and!; [done|done|by rewrite Htot|by rewrite Herr].
Defined.

(** X7.  When [check_validity] returns for the data type [numeric],
    [error_count] is the number of rows whose value is not a text made of
    digits with at most one point after the first digit; NULL counts as an
    error. *)
Theorem validity_numeric_counts db now tbl col s r s' t :
  check_validity db now tbl col "numeric" s = (Ok r, s') ->
  relations db !! tbl = Some t ->
  total_count r = Z.of_nat (length (rows t)) /\
  error_count r =
    Z.of_nat (length (filter (fun row => is_numeric col row = false) (rows t))).
Proof.
  intros H Ht.
  apply check_validity_executes in H
    as (cond & total & valid & [[_ ->]|[? _]] & E & -> & ->); [|discriminate].
  destruct (count_when_executes _ _ _ _ _ _ _ E Ht) as [-> Hw]. split; [done|].
  rewrite (count_when_filter db now (rows t) _ (is_numeric col)) in Hw.
  - injection Hw as <-.
    rewrite (length_filter_split (is_numeric col) (rows t)). lia.
  - intros row _. simpl. eexists. split; [reflexivity|]. unfold is_numeric.
    destruct (row !! col) as [[|txt|]|]; simpl; try (split; discriminate).
    destruct (matches_numeric txt); simpl; split; congruence.
Qed.

(** The e-mail address of the one customer is no number. *)
Lemma validity_numeric_counts_witness :
  exists r s',
    check_validity example_db 1000 "core.customer" "email" "numeric" init = (Ok r, s') /\
    relations example_db !! "core.customer"%string = Some customer_table /\
    total_count r = 1 /\ error_count r = 1.
Proof.
  destruct (check_validity example_db 1000 "core.customer" "email" "numeric" init)
    as [[r|e] s'] eqn:E; [|vm_compute in E; discriminate E].
  assert (relations example_db !! "core.customer"%string = Some customer_table) as Ht
    by (vm_compute; reflexivity).
  destruct (validity_numeric_counts example_db 1000 "core.customer" "email" init
              r s' customer_table E Ht) as [Htot Herr].
  exists r, s'. split_and!; [done|done|by rewrite Htot|by rewrite Herr].
Defined.

Lemma count_when_cast db now rs col n :
  count_when db now rs [CastDateNotNull col] = Ok n ->
  n = Z.of_nat (length (filter (fun row => is_null col row = false) rs)) /\
  Forall (fun row => castable db col row = true) rs.
Proof.
  revert n. induction rs as [|row rs IH]; intros n H.
  - simpl in H. injection H as <-. split; [done|constructor].
  - simpl in H. rewrite filter_cons, Forall_cons.
    destruct (count_when db now rs [CastDateNotNull col]) as [m|] eqn:E.
    + destruct (IH m eq_refl) as [-> Hall].
      assert (is_null col row = bool_decide (row !! col = None)) as Hnull by done.
      assert (castable db col row =
              match row !! col with Some (VText s) => date_in db s | _ => true end)
        as Hcast by done.
      destruct (row !! col) as [[|txt|]|]; simpl in H.
      * injection H as <-. rewrite decide_True by done. simpl length. split; [lia|done].
      * destruct (date_in db txt); [|discriminate]. simpl in H. injection H as <-.
        rewrite decide_True by done. simpl length. split; [lia|done].
      * injection H as <-. rewrite decide_True by done. simpl length. split; [lia|done].
      * injection H as <-. rewrite decide_False by (by rewrite Hnull). done.
    + destruct (row !! col) as [[|txt|]|]; simpl in H; try discriminate.
      destruct (date_in db txt); discriminate.
Qed.

(** X8.  When [check_validity] returns for the data type [date], every
    text in the column is one the server reads as a date, and [error_count]
    is the number of NULLs: the cast in the statement fails on any other
    text, so the check raises in place of counting it as invalid. *)
Theorem validity_date_counts_only_nulls db now tbl col s r s' t :
  check_validity db now tbl col "date" s = (Ok r, s') ->
  relations db !! tbl = Some t ->
  total_count r = Z.of_nat (length (rows t)) /\
  error_count r =
    Z.of_nat (length (filter (fun row => is_null col row = true) (rows t))) /\
  Forall (fun row => castable db col row = true) (rows t).
Proof.
  intros H Ht.
  apply check_validity_executes in H
    as (cond & total & valid & [[? _]|[_ ->]] & E & -> & ->); [discriminate|].
  destruct (count_when_executes _ _ _ _ _ _ _ E Ht) as [-> Hw].
  apply count_when_cast in Hw as [-> Hall]. split_and!; [done| |done].
  rewrite (length_filter_split (is_null col) (rows t)). lia.
Qed.

(** The second transaction of the small warehouse has a date; so has the
    first. *)
Lemma validity_date_counts_only_nulls_witness :
  exists r s',
    check_validity example_db 1000 "core.transaction" "transaction_date" "date" init
      = (Ok r, s') /\
    relations example_db !! "core.transaction"%string = Some transaction_table /\
    total_count r = 2 /\ error_count r = 0.
Proof.
  destruct (check_validity example_db 1000 "core.transaction" "transaction_date" "date" init)
    as [[r|e] s'] eqn:E; [|vm_compute in E; discriminate E].
  assert (relations example_db !! "core.transaction"%string = Some transaction_table) as Ht
    by (vm_compute; reflexivity).
  destruct (validity_date_counts_only_nulls example_db 1000
              "core.transaction" "transaction_date" init r s' transaction_table E Ht)
    as (Htot & Herr & _).
  exists r, s'. split_and!; [done|done|by rewrite Htot|by rewrite Herr].
Defined.

Lemma append_cons c a x : (String c a ++ x)%string = String c (a ++ x)%string.
Proof. reflexivity. Qed.

Lemma drop_digits_split s :
  exists a, all_digits a = true /\ s = (a ++ drop_digits s)%string.
Proof.
  induction s as [|c s (a & Ha & Hs)].
  - by exists EmptyString.
  - simpl. destruct (is_digit c) eqn:Ec.
    + exists (String c a). simpl. rewrite Ec, Ha. split; [done|]. by rewrite append_cons, <- Hs.
    + by exists EmptyString.
Qed.

Lemma drop_digits_all a : all_digits a = true -> drop_digits a = EmptyString.
Proof.
  induction a as [|c a IH]; [done|]. simpl. intros [Hc Ha]%andb_true_iff.
  rewrite Hc. by apply IH.
Qed.

Lemma drop_digits_app a rest :
  all_digits a = true ->
  drop_digits (a ++ String "."%char rest) = String "."%char rest.
Proof.
  induction a as [|c a IH]; [done|]. rewrite append_cons. simpl.
  intros [Hc Ha]%andb_true_iff. rewrite Hc. by apply IH.
Qed.

Lemma all_digits_drop s : drop_digits s = EmptyString -> all_digits s = true.
Proof.
  induction s as [|c s IH]; [done|]. simpl. destruct (is_digit c); [done|discriminate].
Qed.

(** X9.  The pattern of the numeric validity check, [^[0-9]+\.?[0-9]*$],
    accepts exactly the texts made of one or more digits, optionally
    followed by a point and any number of digits: no sign, no exponent, no
    leading point, no surrounding space. *)
Theorem numeric_pattern s :
  matches_numeric s = true <->
  exists a b, a <> EmptyString /\ all_digits a = true /\ all_digits b = true /\
              (s = a \/ s = (a ++ String "."%char b)%string).
Proof.
  split.
  - destruct s as [|c s]; [discriminate|]. simpl.
    intros [Hc Hr]%andb_true_iff.
    destruct (drop_digits_split s) as (a & Ha & Hs).
    destruct (drop_digits s) as [|d r] eqn:Ed.
    + exists (String c a), EmptyString. simpl. rewrite Hc, Ha. split_and!; try done.
      left. rewrite Hs at 1. f_equal. clear. induction a as [|x a IH]; [done|].
      rewrite append_cons. congruence.
    + destruct (Ascii.eqb_spec d "."%char) as [->|Hd].
      * exists (String c a), r. simpl. rewrite Hc, Ha. split_and!; try done.
        -- apply all_digits_drop. by destruct (drop_digits r).
        -- right. by rewrite append_cons, <- Hs.
      * exfalso. destruct d as [[] [] [] [] [] [] [] []]; try discriminate. by apply Hd.
  - intros (a & b & Hne & Ha & Hb & Hs). destruct a as [|c a]; [done|].
    simpl in Ha. apply andb_true_iff in Ha as [Hc Ha].
    destruct Hs as [->| ->]; rewrite ?append_cons; simpl; rewrite Hc; simpl.
    + by rewrite drop_digits_all.
    + rewrite drop_digits_app by done. by rewrite drop_digits_all.
Qed.

Lemma check_consistency_executes db now tbl col rtbl rcol s r s' t rt :
  check_consistency db now tbl col rtbl rcol s = (Ok r, s') ->
  relations db !! tbl = Some t ->
  relations db !! rtbl = Some rt ->
  total_count r = Z.of_nat (length (rows t)) /\
  error_count r = orphaned (rows t) (rows rt) col rcol /\
  passed r = exactly (percentage (total_count r - error_count r) (total_count r)) 100.
Proof.
  intros H Ht Hrt. apply with_cursor_returns in H as [_ H].
  unfold mbind, M_bind, bind, query1, lift in H.
  destruct (execute db now (SelectOrphans tbl col rtbl rcol)) as [row|] eqn:E;
    [|discriminate].
  destruct (first_column row) as [orphans|] eqn:F; [|discriminate].
  destruct (execute db now (SelectCount tbl)) as [row'|] eqn:E'; [|discriminate].
  destruct (first_column row') as [total|] eqn:F'; [|discriminate].
  inversion H; subst; simpl. clear H.
  simpl in E, E'. rewrite Ht in E, E'. rewrite Hrt in E.
  repeat case_match; simplify_eq. simpl in *. by simplify_eq.
Qed.

Lemma none_filtered {A} (P : A -> bool) (l : list A) :
  length (filter (fun x => P x = true) l) = 0%nat <-> Forall (fun x => P x = false) l.
Proof.
  induction l as [|x l IH]; [by split; [constructor|]|].
  rewrite filter_cons, Forall_cons. destruct (P x); case_decide; try done; simpl.
  - split; [lia|]. intros [? _]. done.
  - rewrite IH. tauto.
Qed.

Lemma matched_iff rs col rcol row :
  matched rs col rcol row = true <->
  is_null col row = false /\ dangling rs col rcol row = false.
Proof.
  unfold matched, is_null, dangling. destruct (row !! col) as [v|].
  - rewrite bool_decide_eq_true, !bool_decide_eq_false. split.
    + intros Hex. split; [done|]. intros Hall.
      by apply (Forall_not_Exists (fun r => r !! rcol = Some v) rs).
    + intros [_ Hn]. destruct (decide (Exists (fun r => r !! rcol = Some v) rs)) as [|Hne];
        [done|]. exfalso. apply Hn.
      by apply (not_Exists_Forall (fun r => r !! rcol = Some v)) in Hne.
  - rewrite bool_decide_eq_false. split; [done|]. intros [H _]. by destruct H.
Qed.

(** X10.  A consistency check over at most 2^47 rows passes exactly when
    the table has at least one row and every row carries a key that some
    row of the reference table carries: one NULL key, or one key without a
    reference row, fails it, and so does a table without rows. *)
Theorem consistency_passes_iff db now tbl col rtbl rcol s r s' t rt :
  check_consistency db now tbl col rtbl rcol s = (Ok r, s') ->
  relations db !! tbl = Some t ->
  relations db !! rtbl = Some rt ->
  Z.of_nat (length (rows t)) <= row_limit ->
  passed r = true <->
  rows t <> [] /\ Forall (fun row => matched (rows rt) col rcol row = true) (rows t).
Proof.
  intros H Ht Hrt Hlim.
  destruct (check_consistency_executes _ _ _ _ _ _ _ _ _ _ _ H Ht Hrt) as (Htot & Herr & ->).
  rewrite Herr, Htot, orphaned_count.
  set (nulls := length (filter (fun t0 : gmap string value => t0 !! col = None) (rows t))).
  set (dang := length (filter (fun t0 => dangling (rows rt) col rcol t0 = true) (rows t))).
  assert (Forall (fun row => matched (rows rt) col rcol row = true) (rows t)
          <-> nulls = 0%nat /\ dang = 0%nat) as Hall.
  { unfold nulls, dang. rewrite (none_filtered (dangling (rows rt) col rcol)).
    assert (filter (fun t0 : gmap string value => t0 !! col = None) (rows t)
            = filter (fun t0 => is_null col t0 = true) (rows t)) as ->.
    { apply list_filter_iff. intros x. unfold is_null. by rewrite bool_decide_eq_true. }
    rewrite (none_filtered (is_null col)), <- Forall_and.
    apply Forall_iff. intros row. apply matched_iff. }
  destruct (rows t) as [|row0 l] eqn:Erows.
  - simpl. split; [discriminate|]. intros [? _]. done.
  - rewrite exactly_100 by (simpl length in *; lia). rewrite Hall. split.
    + intros Heq. split; [done|]. lia.
    + intros [_ [-> ->]]. lia.
Qed.

(** The second transaction of the small warehouse has no customer: the
    check fails, and not every row is matched. *)
Lemma consistency_passes_iff_witness :
  exists r s',
    check_consistency example_db 1000 "core.transaction" "customer_id"
      "core.customer" "customer_id" init = (Ok r, s') /\
    relations example_db !! "core.transaction"%string = Some transaction_table /\
    relations example_db !! "core.customer"%string = Some customer_table /\
    Z.of_nat (length (rows transaction_table)) <= row_limit /\
    (passed r = true <->
     rows transaction_table <> [] /\
     Forall (fun row => matched (rows customer_table) "customer_id" "customer_id" row = true)
       (rows transaction_table)).
Proof.
  eexists _, _. split_and!.
  - vm_compute. reflexivity.
  - vm_compute. reflexivity.
  - vm_compute. reflexivity.
  - vm_compute. discriminate.
  - eapply (consistency_passes_iff example_db 1000 "core.transaction" "customer_id"
              "core.customer" "customer_id" init).
    + vm_compute. reflexivity.
    + vm_compute. reflexivity.
    + vm_compute. reflexivity.
    + vm_compute. discriminate.
Defined.

Lemma with_cursor_unreachable {A} db k (body : M state A) s :
  accepting db = false ->
  with_cursor db k body s =
    (Raise UnboundLocalError,
     extend s [ERROR (ConnectError OperationalError);
               ERROR (CheckError k OperationalError)]).
Proof.
  intros Hd. unfold with_cursor, connect. rewrite Hd. simpl.
  unfold extend, try_finally, try_except, mbind, M_bind, bind. simpl.
  by rewrite <- app_assoc.
Qed.

Lemma call_unreachable db now c s :
  accepting db = false ->
  call db now c s =
    (Raise UnboundLocalError,
     extend s [ERROR (ConnectError OperationalError);
               ERROR (CheckError (kind_of c) OperationalError)]).
Proof. intros Hd. destruct c; simpl; by apply with_cursor_unreachable. Qed.

Lemma returned_unreachable db now registry :
  accepting db = false -> returned db now registry = [].
Proof.
  intros Hd. unfold returned, outcome. induction registry as [|c cs IH]; [done|].
  simpl. by rewrite call_unreachable, IH.
Qed.

(** X11.  When the server cannot be reached, every check logs the
    connection error and raises [UnboundLocalError], not the connection
    error: the [finally] clause closes a cursor that was never bound.  A
    run still returns; it records no result and writes a report of the
    results the checker held before. *)
Theorem unreachable_server_gives_no_result db now c registry s :
  accepting db = false ->
  call db now c s =
    (Raise UnboundLocalError,
     extend s [ERROR (ConnectError OperationalError);
               ERROR (CheckError (kind_of c) OperationalError)]) /\
  exists s',
    run_registry registry db now s = (Ok tt, s') /\
    results s' = results s /\
    quality_report_json s' = Some (report_of now (results s)).
Proof.
  intros Hd. split; [by apply call_unreachable|].
  destruct (run_registry_spec registry db now s) as (s' & l & H & Hr & Hj & _).
  exists s'. rewrite returned_unreachable, app_nil_r in Hr by done.
  split_and!; [done|done|]. by rewrite Hj, Hr.
Qed.

(** The fourteen checks of [run_quality_checks] against a server that is
    down: the report counts no check. *)
Lemma unreachable_server_gives_no_result_witness :
  accepting unreachable_db = false /\
  (call unreachable_db 1000 (Completeness "core.customer" "email") init).1
    = Raise UnboundLocalError /\
  exists s',
    run_quality_checks unreachable_db 1000 init = (Ok tt, s') /\
    results s' = [] /\
    quality_report_json s' = Some (report_of 1000 []).
Proof.
  destruct (unreachable_server_gives_no_result unreachable_db 1000
              (Completeness "core.customer" "email") checks init eq_refl)
    as (Hc & s' & Hrun & Hr & Hj).
  split_and!; [done|by rewrite Hc|]. by exists s'.
Defined.

(** X12.  [check_validity] knows the data types [numeric] and [date]
    only: for any other name it raises [ValueError] after connecting,
    whatever the table holds, and sends no statement. *)
Theorem unsupported_data_type_is_a_value_error db now tbl col data_type s :
  accepting db = true ->
  data_type <> "numeric"%string -> data_type <> "date"%string ->
  check_validity db now tbl col data_type s =
    (Raise ValueError,
     extend s [INFO Connected; ERROR (CheckError VALIDITY ValueError)]).
Proof.
  intros Hd Hn Hdt. unfold check_validity, with_cursor, connect. rewrite Hd. simpl.
  unfold try_finally, try_except, mbind, M_bind, bind.
  rewrite !bool_decide_eq_false_2 by done. simpl.
  unfold extend. simpl. by rewrite <- app_assoc.
Qed.

(** The data type [integer] on the small warehouse. *)
Lemma unsupported_data_type_is_a_value_error_witness :
  accepting example_db = true /\
  "integer"%string <> "numeric"%string /\ "integer"%string <> "date"%string /\
  check_validity example_db 1000 "core.transaction" "amount" "integer" init =
    (Raise ValueError,
     extend init [INFO Connected; ERROR (CheckError VALIDITY ValueError)]).
Proof.
  assert ("integer"%string <> "numeric"%string) as Hn by discriminate.
  assert ("integer"%string <> "date"%string) as Hd by discriminate.
  split_and!; [done|done|done|].
  exact (unsupported_data_type_is_a_value_error example_db 1000
           "core.transaction" "amount" "integer" init eq_refl Hn Hd).
Defined.

Lemma run_one_warns db now c s :
  exists l,
    logged (run_one db now c s).2 = logged s ++ l /\
    Forall (fun r => WARNING (CheckFailed (check_type r) (table_name r) (column_name r)) ∈ l)
      (filter (fun r => passed r = false)
         (match outcome db now c with Ok r => [r] | Raise _ => [] end)).
Proof.
  unfold run_one, try_except, mbind, M_bind, bind, outcome.
  rewrite (log_only_call db now c s).
  destruct (call db now c init) as [[r|e] s0]; simpl.
  - rewrite filter_cons, filter_nil. case_decide as Hp.
    + rewrite Hp. simpl. eexists (_ ++ _). split; [by rewrite <- app_assoc|].
      repeat constructor. apply elem_of_app. right. by apply list_elem_of_singleton.
    + destruct (passed r); [|done]. simpl. eexists. split; [done|]. constructor.
  - eexists (_ ++ _). split; [by rewrite <- app_assoc|]. constructor.
Qed.

Lemma for_each_warns db now registry s :
  exists l,
    logged (for_each registry (run_one db now) s).2 = logged s ++ l /\
    Forall (fun r => WARNING (CheckFailed (check_type r) (table_name r) (column_name r)) ∈ l)
      (filter (fun r => passed r = false) (returned db now registry)).
Proof.
  revert s. induction registry as [|c registry IH]; intros s.
  - exists []. split; [by rewrite app_nil_r|constructor].
  - destruct (run_one_warns db now c s) as (l1 & Hl1 & Hw1).
    destruct (run_one_spec db now c s) as (s1 & l & H1 & _).
    rewrite H1 in Hl1. simpl in Hl1.
    destruct (IH s1) as (l2 & Hl2 & Hw2).
    exists (l1 ++ l2). simpl. unfold bind. rewrite H1. split.
    + by rewrite Hl2, Hl1, app_assoc.
    + unfold returned. simpl. rewrite filter_app. apply Forall_app. split.
      * eapply Forall_impl; [exact Hw1|]. intros r Hr. apply elem_of_app. by left.
      * eapply Forall_impl; [exact Hw2|]. intros r Hr. apply elem_of_app. by right.
Qed.

(** X13.  A run warns about every check that returned a failing verdict:
    for each result with [passed = false] that the run appends, the log
    holds the WARNING record naming its kind, table and column. *)
Theorem failed_checks_are_warned_about registry db now s :
  exists s',
    run_registry registry db now s = (Ok tt, s') /\
    Forall (fun r => WARNING (CheckFailed (check_type r) (table_name r) (column_name r))
                       ∈ logged s')
      (filter (fun r => passed r = false) (returned db now registry)).
Proof.
  destruct (for_each_warns db now registry (log (INFO Starting) s).2) as (l & Hl & Hw).
  destruct (for_each_run_one db now registry (log (INFO Starting) s).2)
    as (s1 & l1 & H1 & _).
  rewrite H1 in Hl. simpl in Hl.
  unfold run_registry, try_except, mbind, M_bind, bind. simpl in *.
  rewrite H1. simpl. eexists. split; [done|]. simpl. rewrite Hl.
  eapply Forall_impl; [exact Hw|]. intros r Hr.
  apply elem_of_app. left. apply elem_of_app. left. apply elem_of_app. by right.
Qed.

End check_semantics.

(** ** What the transform keeps and what a load stores *)

Section load_semantics.

Import etl_processes.

Lemma filter_filter_map {A B} (f : A -> B) (P Q : B -> bool) (l : list A) :
  map f (filter (fun a => Q (f a) = true) (filter (fun a => P (f a) = true) l)) =
  filter (fun b => (P b && Q b) = true) (map f l).
Proof.
  induction l as [|a l IH]; [done|]. cbn [map].
  rewrite (filter_cons (fun b => (P b && Q b) = true)).
  rewrite (filter_cons (fun a => P (f a) = true)).
  destruct (P (f a)) eqn:EP; destruct (Q (f a)) eqn:EQ; simpl;
    repeat case_decide; try congruence;
    rewrite ?filter_cons; repeat case_decide; try congruence;
    cbn [map]; by rewrite IH.
Qed.

(** X14.  On a batch with the columns [extract_transactions] builds,
    [transform_transactions] does not raise.  It returns, in their order
    and with their columns unchanged, exactly the rows whose amount is not
    negative and whose status is COMPLETED, PENDING or FAILED, logs their
    number, and gives [is_holiday] the value of [is_weekend] in every
    row. *)
Theorem transform_transactions_keeps_valid_rows df w :
  exists out,
    transform_transactions df w =
      (Ok out,
       {| logged := logged w ++ [INFO (TransformedTransactions (length out))];
          committed := committed w;
          pending := pending w |}) /\
    map Transaction.raw out = filter (fun r => valid_transaction r = true) df /\
    Forall (fun r => Transaction.is_holiday r = Transaction.is_weekend r) out.
Proof.
  eexists. split; [reflexivity|]. split.
  - rewrite (filter_filter_map Transaction.raw
               (fun r => Qle_bool 0 (Transaction.amount r))
               (fun r => isin (Transaction.status r) ["COMPLETED"; "PENDING"; "FAILED"]%string)).
    rewrite map_map. simpl. by rewrite map_id.
  - apply Forall_forall. intros r Hr.
    apply list_elem_of_filter in Hr as [_ Hr]. apply list_elem_of_filter in Hr as [_ Hr].
    apply list_elem_of_In, in_map_iff in Hr as (x & <- & _). done.
Qed.

Section stored_keys.
Context {A : Type}.
Variable updated : A -> A -> A.
Variable key : A -> Z.
Variable default : option Z.
Variable now : Z.

Local Abbreviation put := (upsert updated default now).
Local Abbreviation put_all := (upsert_all updated key default now).

Lemma upsert_dom k r (t : gmap Z (staged A)) : dom (put k r t) = {[k]} ∪ dom t.
Proof. unfold upsert. destruct (t !! k); apply dom_insert_L. Qed.

Lemma upsert_all_dom df (t : gmap Z (staged A)) :
  dom (put_all df t) = dom t ∪ list_to_set (key <$> df).
Proof.
  revert t. induction df as [|r df IH]; intros t; simpl.
  - by rewrite (right_id_L ∅ (∪)).
  - change (dom (put_all df (put (key r) r t)) =
            dom t ∪ ({[key r]} ∪ list_to_set (key <$> df))).
    rewrite IH, upsert_dom, (comm_L (∪) {[key r]} (dom t)).
    by rewrite (assoc_L (∪)).
Qed.

Lemma upsert_all_elsewhere k df (t : gmap Z (staged A)) :
  k ∉ key <$> df -> put_all df t !! k = t !! k.
Proof.
  intros Hk. apply upsert_all_untouched. apply Forall_forall. intros x Hx Heq.
  apply Hk. rewrite <- Heq. by apply list_elem_of_fmap_2.
Qed.

Lemma upsert_all_unique r df (t : gmap Z (staged A)) :
  r ∈ df -> NoDup (key <$> df) ->
  put_all df t !! key r =
    Some (match t !! key r with
          | None => {| cols := r; last_updated := default |}
          | Some old => {| cols := updated (cols old) r; last_updated := Some now |}
          end).
Proof.
  intros Hin Hnd. apply list_elem_of_split in Hin as (pre & post & ->).
  rewrite fmap_app, fmap_cons in Hnd.
  apply NoDup_app in Hnd as (_ & Hpre & Hpost). apply NoDup_cons in Hpost as [Hpost _].
  rewrite upsert_all_app. simpl.
  rewrite upsert_all_elsewhere by done.
  rewrite upsert_lookup, upsert_all_elsewhere; [done|].
  intros Hk. apply (Hpre (key r)); [done|]. by left.
Qed.

Lemma only_row_split (P : A -> Prop) `{!forall x, Decision (P x)} (df : list A) r :
  filter P df = [r] ->
  exists pre post, df = pre ++ r :: post /\
                   Forall (fun x => ¬ P x) pre /\ Forall (fun x => ¬ P x) post.
Proof.
  induction df as [|a df IH]; [done|]. rewrite filter_cons. case_decide as Ha.
  - intros [= -> Hnil]. exists [], df. split_and!; [done|constructor|].
    apply Forall_forall. intros x Hx HP. by apply (filter_nil_not_elem_of P df x).
  - intros Hf. destruct (IH Hf) as (pre & post & -> & Hpre & Hpost).
    exists (a :: pre), post. split_and!; [done|by constructor|done].
Qed.

Lemma upsert_all_once r df (t : gmap Z (staged A)) :
  filter (fun x => key x = key r) df = [r] ->
  put_all df t !! key r =
    Some (match t !! key r with
          | None => {| cols := r; last_updated := default |}
          | Some old => {| cols := updated (cols old) r; last_updated := Some now |}
          end).
Proof.
  intros (pre & post & -> & Hpre & Hpost)%only_row_split.
  rewrite upsert_all_app. simpl.
  rewrite (upsert_all_untouched updated key default now (key r) post) by done.
  by rewrite upsert_lookup, (upsert_all_untouched updated key default now (key r) pre).
Qed.

Lemma upsert_all_fresh r df (t : gmap Z (staged A)) :
  filter (fun x => key x = key r) df = [r] -> t !! key r = None ->
  put_all df t !! key r = Some {| cols := r; last_updated := default |}.
Proof. intros Honce Hnone. by rewrite upsert_all_once, Hnone. Qed.

Lemma upsert_all_perm df df' (t : gmap Z (staged A)) :
  df ≡ₚ df' -> NoDup (key <$> df) -> put_all df t = put_all df' t.
Proof.
  intros Hp Hnd. apply map_eq. intros k.
  assert (NoDup (key <$> df')) as Hnd' by (by rewrite <- Hp).
  destruct (decide (k ∈ key <$> df)) as [Hk|Hk].
  - apply list_elem_of_fmap in Hk as (r & -> & Hr).
    rewrite !upsert_all_unique; [done|by rewrite <- Hp|done|done|done].
  - rewrite !upsert_all_elsewhere; [done|by rewrite <- Hp|done].
Qed.
End stored_keys.

Section same_batch.
Context {A I Mu : Type}.
Variable updated : A -> A -> A.
Variable key : A -> Z.
Variable immutable : A -> I.
Variable mutable : A -> Mu.
Hypothesis updated_immutable : forall old r, immutable (updated old r) = immutable old.
Hypothesis updated_mutable : forall old r, mutable (updated old r) = mutable r.
Hypothesis columns_ext : forall a b,
  immutable a = immutable b -> mutable a = mutable b -> a = b.

Lemma last_with_exists k (df : list A) :
  k ∈ key <$> df -> exists r, last_with key k r df.
Proof.
  induction df as [|x df IH] using rev_ind; [by intros ?%elem_of_nil|].
  rewrite fmap_app. intros Hk. destruct (decide (key x = k)) as [Hx|Hx].
  - exists x, df, []. split_and!; [done|done|constructor].
  - apply elem_of_app in Hk as [Hk|Hk].
    + destruct (IH Hk) as (r & pre & post & -> & Hr & Hpost).
      exists r, pre, (post ++ [x]). split_and!; [by rewrite <- app_assoc|done|].
      apply Forall_app. split; [done|]. by constructor.
    + apply list_elem_of_singleton in Hk. by destruct Hx.
Qed.

Lemma upsert_all_mutable default now k r df (t : gmap Z (staged A)) :
  last_with key k r df ->
  exists st, upsert_all updated key default now df t !! k = Some st /\
             mutable (cols st) = mutable r.
Proof.
  intros (pre & post & -> & Hk & Hpost).
  rewrite upsert_all_app. simpl. rewrite upsert_all_untouched by done.
  rewrite Hk, upsert_lookup. eexists. split; [done|].
  destruct (upsert_all updated key default now pre t !! k); simpl; [|done].
  apply updated_mutable.
Qed.

Lemma reload_same_batch default1 default2 now1 now2 df (t : gmap Z (staged A)) k :
  let t1 := upsert_all updated key default1 now1 df t in
  let t2 := upsert_all updated key default2 now2 df t1 in
  cols <$> t2 !! k = cols <$> t1 !! k /\
  (k ∈ key <$> df -> last_updated <$> t2 !! k = Some (Some now2)) /\
  (k ∉ key <$> df -> t2 !! k = t !! k).
Proof.
  intros t1 t2. unfold t2. split_and!.
  - destruct (decide (k ∈ key <$> df)) as [Hk|Hk].
    + destruct (last_with_exists k df Hk) as (r & Hlast).
      destruct (upsert_all_mutable default1 now1 k r df t Hlast) as (st1 & Hst1 & Hm1).
      destruct (upsert_all_mutable default2 now2 k r df t1 Hlast) as (st2 & Hst2 & Hm2).
      change (t1 !! k = Some st1) in Hst1.
      destruct (upsert_all_keeps updated key immutable default2 now2 updated_immutable
                  k df t1 st1 Hst1) as (st2' & Hst2' & Hi).
      rewrite Hst2 in Hst2'. injection Hst2' as <-.
      rewrite Hst1, Hst2. simpl. f_equal. apply columns_ext; congruence.
    + by rewrite (upsert_all_elsewhere updated key default2 now2 k df t1).
  - intros Hk. destruct (last_with_exists k df Hk) as (r & Hlast).
    destruct (upsert_all_mutable default1 now1 k r df t Hlast) as (st1 & Hst1 & _).
    change (t1 !! k = Some st1) in Hst1.
    destruct (upsert_all_last updated key mutable default2 now2 updated_mutable
                k r df t1 (mk_is_Some _ _ Hst1) Hlast) as (st2 & Hst2 & _ & Hl).
    rewrite Hst2. simpl. by rewrite Hl.
  - intros Hk. unfold t1.
    by rewrite !(upsert_all_elsewhere updated key _ _ k df).
Qed.
End same_batch.

Lemma transaction_columns_ext (a b : Transaction.transformed) :
  Transaction.immutable a = Transaction.immutable b ->
  Transaction.mutable a = Transaction.mutable b -> a = b.
Proof.
  destruct a as [[] ? ?], b as [[] ? ?]. unfold Transaction.immutable, Transaction.mutable.
  simpl. intros [= -> -> -> -> -> -> -> -> -> -> -> ->] ->. done.
Qed.

Lemma customer_columns_ext (a b : Customer.transformed) :
  Customer.immutable a = Customer.immutable b ->
  Customer.mutable a = Customer.mutable b -> a = b.
Proof.
  destruct a as [[] ? ?], b as [[] ? ?]. unfold Customer.immutable, Customer.mutable.
  simpl. intros [= -> -> -> -> -> -> -> -> -> -> -> -> -> ->] [= -> -> -> ->]. done.
Qed.

Lemma load_transactions_keeps_customers db now df w :
  customers (committed (load_transactions db now df w).2) = customers (committed w).
Proof.
  destruct (load_transactions_spec db now df w) as (w' & -> & _ & Hc). simpl.
  rewrite Hc. destruct (accepting db); [|done].
  destruct (transaction_batch db now df (committed w)) as [tb|] eqn:E; [|done].
  by apply transaction_batch_tables in E as [_ ->].
Qed.

Lemma load_customers_keeps_transactions db now df w :
  transactions (committed (load_customers db now df w).2) = transactions (committed w).
Proof.
  destruct (load_customers_spec db now df w) as (w' & -> & _ & Hc). simpl.
  rewrite Hc. destruct (accepting db); [|done].
  destruct (customer_batch db now df (committed w)) as [tb|] eqn:E; [|done].
  by apply customer_batch_tables in E as [_ ->].
Qed.

(** X15.  Whether it returns or raises, [load_transactions] leaves
    [staging.customers] as it was, and [load_customers] leaves
    [staging.transactions] as it was. *)
Theorem loaders_touch_their_own_table db now w :
  (forall df, customers (committed (load_transactions db now df w).2)
              = customers (committed w)) /\
  (forall df, transactions (committed (load_customers db now df w).2)
              = transactions (committed w)).
Proof.
  split; intros df;
    [apply load_transactions_keeps_customers|apply load_customers_keeps_transactions].
Qed.

(** X16.  After a load that returns, the keys stored in the staging table
    are the keys stored before together with the keys of the batch, and the
    row under every key that the batch does not mention is untouched, its
    [last_updated] included.  No load deletes a row. *)
Theorem load_stores_the_keys_of_the_batch db now w :
  (forall df w',
     load_transactions db now df w = (Ok tt, w') ->
     dom (transactions (committed w')) =
       dom (transactions (committed w)) ∪ list_to_set (Transaction.key <$> df) /\
     forall k, k ∉ Transaction.key <$> df ->
       transactions (committed w') !! k = transactions (committed w) !! k) /\
  (forall df w',
     load_customers db now df w = (Ok tt, w') ->
     dom (customers (committed w')) =
       dom (customers (committed w)) ∪ list_to_set (Customer.key <$> df) /\
     forall k, k ∉ Customer.key <$> df ->
       customers (committed w') !! k = customers (committed w) !! k).
Proof.
  split; intros df w' H.
  - apply load_transactions_returns in H. rewrite H. split.
    + apply upsert_all_dom.
    + intros k Hk. by apply upsert_all_elsewhere.
  - apply load_customers_returns in H. rewrite H. split.
    + apply upsert_all_dom.
    + intros k Hk. by apply upsert_all_elsewhere.
Qed.

(** One transaction, resp. one customer, loaded into an empty staging
    area: the table holds its key and nothing under another key. *)
Lemma load_stores_the_keys_of_the_batch_witness :
  (exists w',
     load_transactions accepting_db 1 [sample_loaded_transaction] empty_world = (Ok tt, w') /\
     dom (transactions (committed w')) = ∅ ∪ list_to_set [10] /\
     transactions (committed w') !! 11 = None) /\
  (exists w',
     load_customers accepting_db 1 [sample_loaded_customer] empty_world = (Ok tt, w') /\
     dom (customers (committed w')) = ∅ ∪ list_to_set [1] /\
     customers (committed w') !! 2 = None).
Proof.
  split.
  - assert (load_transactions accepting_db 1 [sample_loaded_transaction] empty_world
            = (Ok tt, (load_transactions accepting_db 1 [sample_loaded_transaction] empty_world).2))
      as H by (vm_compute; reflexivity).
    destruct (proj1 (load_stores_the_keys_of_the_batch accepting_db 1 empty_world) _ _ H)
      as [Hd He].
    eexists. split_and!; [exact H|exact Hd|].
    rewrite (He 11); [reflexivity|]. intros Hk%list_elem_of_singleton. discriminate Hk.
  - assert (load_customers accepting_db 1 [sample_loaded_customer] empty_world
            = (Ok tt, (load_customers accepting_db 1 [sample_loaded_customer] empty_world).2))
      as H by (vm_compute; reflexivity).
    destruct (proj2 (load_stores_the_keys_of_the_batch accepting_db 1 empty_world) _ _ H)
      as [Hd He].
    eexists. split_and!; [exact H|exact Hd|].
    rewrite (He 2); [reflexivity|]. intros Hk%list_elem_of_singleton. discriminate Hk.
Defined.

(** X17.  Store and read back.  After a load that returns, a row of the
    batch whose key was not stored before, and which is the only row of the
    batch with that key, is stored with every column as the batch gave it
    and with the column default as [last_updated]; the other rows of the
    batch may repeat their keys. *)
Theorem fresh_row_is_stored_as_loaded db now w :
  (forall df w' r,
     load_transactions db now df w = (Ok tt, w') ->
     filter (fun x => Transaction.key x = Transaction.key r) df = [r] ->
     transactions (committed w) !! Transaction.key r = None ->
     transactions (committed w') !! Transaction.key r =
       Some {| cols := r; last_updated := last_updated_default db now |}) /\
  (forall df w' r,
     load_customers db now df w = (Ok tt, w') ->
     filter (fun x => Customer.key x = Customer.key r) df = [r] ->
     customers (committed w) !! Customer.key r = None ->
     customers (committed w') !! Customer.key r =
       Some {| cols := r; last_updated := last_updated_default db now |}).
Proof.
  split; intros df w' r H Honce Hnone.
  - apply load_transactions_returns in H. rewrite H. by apply upsert_all_fresh.
  - apply load_customers_returns in H. rewrite H. by apply upsert_all_fresh.
Qed.

(** A batch that holds transaction 10 once and transaction 11 twice,
    resp. customer 1 once and customer 2 twice, loaded into an empty
    staging area: transaction 10, resp. customer 1, reads back as
    loaded. *)
Lemma fresh_row_is_stored_as_loaded_witness :
  (exists w',
     load_transactions accepting_db 1
       [other_loaded_transaction; sample_loaded_transaction; other_loaded_transaction]
       empty_world = (Ok tt, w') /\
     transactions (committed w') !! 10 =
       Some {| cols := sample_loaded_transaction; last_updated := None |}) /\
  (exists w',
     load_customers accepting_db 1
       [other_loaded_customer; sample_loaded_customer; other_loaded_customer]
       empty_world = (Ok tt, w') /\
     customers (committed w') !! 1 =
       Some {| cols := sample_loaded_customer; last_updated := None |}).
Proof.
  split.
  - assert (load_transactions accepting_db 1
              [other_loaded_transaction; sample_loaded_transaction; other_loaded_transaction]
              empty_world
            = (Ok tt, (load_transactions accepting_db 1
                         [other_loaded_transaction; sample_loaded_transaction;
                          other_loaded_transaction] empty_world).2))
      as H by (vm_compute; reflexivity).
    eexists. split; [exact H|].
    apply (proj1 (fresh_row_is_stored_as_loaded accepting_db 1 empty_world)
             _ _ sample_loaded_transaction H).
    + reflexivity.
    + reflexivity.
  - assert (load_customers accepting_db 1
              [other_loaded_customer; sample_loaded_customer; other_loaded_customer]
              empty_world
            = (Ok tt, (load_customers accepting_db 1
                         [other_loaded_customer; sample_loaded_customer;
                          other_loaded_customer] empty_world).2))
      as H by (vm_compute; reflexivity).
    eexists. split; [exact H|].
    apply (proj2 (fresh_row_is_stored_as_loaded accepting_db 1 empty_world)
             _ _ sample_loaded_customer H).
    + reflexivity.
    + reflexivity.
Defined.

(** X18.  Loading the same batch a second time changes no column of any
    stored row: under every key the columns after the second load are those
    after the first.  All the second load changes is [last_updated], which
    becomes its own timestamp under the keys of the batch; rows under other
    keys are as before the first load. *)
Theorem reloading_a_batch_changes_no_column db now1 now2 w :
  (forall df w1 w2 k,
     load_transactions db now1 df w = (Ok tt, w1) ->
     load_transactions db now2 df w1 = (Ok tt, w2) ->
     cols <$> transactions (committed w2) !! k = cols <$> transactions (committed w1) !! k /\
     (k ∈ Transaction.key <$> df ->
      last_updated <$> transactions (committed w2) !! k = Some (Some now2)) /\
     (k ∉ Transaction.key <$> df ->
      transactions (committed w2) !! k = transactions (committed w) !! k)) /\
  (forall df w1 w2 k,
     load_customers db now1 df w = (Ok tt, w1) ->
     load_customers db now2 df w1 = (Ok tt, w2) ->
     cols <$> customers (committed w2) !! k = cols <$> customers (committed w1) !! k /\
     (k ∈ Customer.key <$> df ->
      last_updated <$> customers (committed w2) !! k = Some (Some now2)) /\
     (k ∉ Customer.key <$> df ->
      customers (committed w2) !! k = customers (committed w) !! k)).
Proof.
  split; intros df w1 w2 k H1 H2.
  - apply load_transactions_returns in H1, H2. rewrite H2, H1.
    by apply (reload_same_batch Transaction.updated Transaction.key
                Transaction.immutable Transaction.mutable), transaction_columns_ext.
  - apply load_customers_returns in H1, H2. rewrite H2, H1.
    by apply (reload_same_batch Customer.updated Customer.key
                Customer.immutable Customer.mutable), customer_columns_ext.
Qed.

(** One transaction, resp. one customer, loaded at time 1 and again at
    time 2. *)
Lemma reloading_a_batch_changes_no_column_witness :
  (exists w1 w2,
     load_transactions accepting_db 1 [sample_loaded_transaction] empty_world = (Ok tt, w1) /\
     load_transactions accepting_db 2 [sample_loaded_transaction] w1 = (Ok tt, w2) /\
     cols <$> transactions (committed w2) !! 10 = cols <$> transactions (committed w1) !! 10 /\
     last_updated <$> transactions (committed w2) !! 10 = Some (Some 2)) /\
  (exists w1 w2,
     load_customers accepting_db 1 [sample_loaded_customer] empty_world = (Ok tt, w1) /\
     load_customers accepting_db 2 [sample_loaded_customer] w1 = (Ok tt, w2) /\
     cols <$> customers (committed w2) !! 1 = cols <$> customers (committed w1) !! 1 /\
     last_updated <$> customers (committed w2) !! 1 = Some (Some 2)).
Proof.
  split.
  - assert (load_transactions accepting_db 1 [sample_loaded_transaction] empty_world
            = (Ok tt, (load_transactions accepting_db 1 [sample_loaded_transaction] empty_world).2))
      as H1 by (vm_compute; reflexivity).
    assert (load_transactions accepting_db 2 [sample_loaded_transaction]
              (load_transactions accepting_db 1 [sample_loaded_transaction] empty_world).2
            = (Ok tt, (load_transactions accepting_db 2 [sample_loaded_transaction]
                 (load_transactions accepting_db 1 [sample_loaded_transaction] empty_world).2).2))
      as H2 by (vm_compute; reflexivity).
    destruct (proj1 (reloading_a_batch_changes_no_column accepting_db 1 2 empty_world)
                _ _ _ 10 H1 H2) as (Hc & Hl & _).
    eexists _, _. split_and!; [exact H1|exact H2|exact Hc|].
    apply Hl. by apply list_elem_of_singleton.
  - assert (load_customers accepting_db 1 [sample_loaded_customer] empty_world
            = (Ok tt, (load_customers accepting_db 1 [sample_loaded_customer] empty_world).2))
      as H1 by (vm_compute; reflexivity).
    assert (load_customers accepting_db 2 [sample_loaded_customer]
              (load_customers accepting_db 1 [sample_loaded_customer] empty_world).2
            = (Ok tt, (load_customers accepting_db 2 [sample_loaded_customer]
                 (load_customers accepting_db 1 [sample_loaded_customer] empty_world).2).2))
      as H2 by (vm_compute; reflexivity).
    destruct (proj2 (reloading_a_batch_changes_no_column accepting_db 1 2 empty_world)
                _ _ _ 1 H1 H2) as (Hc & Hl & _).
    eexists _, _. split_and!; [exact H1|exact H2|exact Hc|].
    apply Hl. by apply list_elem_of_singleton.
Defined.

(** X20.  For a batch in which no key occurs twice, the order of the rows
    does not matter: two loads of the same rows in different orders, from
    the same staging area and at the same time, store the same table when
    both return. *)
Theorem row_order_is_irrelevant_for_unique_keys db now w :
  (forall df df' w1 w2,
     load_transactions db now df w = (Ok tt, w1) ->
     load_transactions db now df' w = (Ok tt, w2) ->
     df ≡ₚ df' -> NoDup (Transaction.key <$> df) ->
     transactions (committed w1) = transactions (committed w2)) /\
  (forall df df' w1 w2,
     load_customers db now df w = (Ok tt, w1) ->
     load_customers db now df' w = (Ok tt, w2) ->
     df ≡ₚ df' -> NoDup (Customer.key <$> df) ->
     customers (committed w1) = customers (committed w2)).
Proof.
  split; intros df df' w1 w2 H1 H2 Hp Hnd.
  - apply load_transactions_returns in H1, H2. rewrite H1, H2.
    by apply upsert_all_perm.
  - apply load_customers_returns in H1, H2. rewrite H1, H2.
    by apply upsert_all_perm.
Qed.

(** Two transactions, resp. two customers, loaded in either order. *)
Lemma row_order_is_irrelevant_for_unique_keys_witness :
  (exists w1 w2,
     load_transactions accepting_db 1 [sample_loaded_transaction; other_loaded_transaction]
       empty_world = (Ok tt, w1) /\
     load_transactions accepting_db 1 [other_loaded_transaction; sample_loaded_transaction]
       empty_world = (Ok tt, w2) /\
     transactions (committed w1) = transactions (committed w2)) /\
  (exists w1 w2,
     load_customers accepting_db 1 [sample_loaded_customer; other_loaded_customer]
       empty_world = (Ok tt, w1) /\
     load_customers accepting_db 1 [other_loaded_customer; sample_loaded_customer]
       empty_world = (Ok tt, w2) /\
     customers (committed w1) = customers (committed w2)).
Proof.
  split.
  - assert (load_transactions accepting_db 1
              [sample_loaded_transaction; other_loaded_transaction] empty_world
            = (Ok tt, (load_transactions accepting_db 1
                         [sample_loaded_transaction; other_loaded_transaction]
                         empty_world).2))
      as H1 by (vm_compute; reflexivity).
    assert (load_transactions accepting_db 1
              [other_loaded_transaction; sample_loaded_transaction] empty_world
            = (Ok tt, (load_transactions accepting_db 1
                         [other_loaded_transaction; sample_loaded_transaction]
                         empty_world).2))
      as H2 by (vm_compute; reflexivity).
    eexists _, _. split_and!; [exact H1|exact H2|].
    apply (proj1 (row_order_is_irrelevant_for_unique_keys accepting_db 1 empty_world)
             _ _ _ _ H1 H2).
    + apply perm_swap.
    + apply NoDup_cons. split; [|apply NoDup_singleton].
      intros Hk%list_elem_of_singleton. discriminate Hk.
  - assert (load_customers accepting_db 1
              [sample_loaded_customer; other_loaded_customer] empty_world
            = (Ok tt, (load_customers accepting_db 1
                         [sample_loaded_customer; other_loaded_customer]
                         empty_world).2))
      as H1 by (vm_compute; reflexivity).
    assert (load_customers accepting_db 1
              [other_loaded_customer; sample_loaded_customer] empty_world
            = (Ok tt, (load_customers accepting_db 1
                         [other_loaded_customer; sample_loaded_customer]
                         empty_world).2))
      as H2 by (vm_compute; reflexivity).
    eexists _, _. split_and!; [exact H1|exact H2|].
    apply (proj2 (row_order_is_irrelevant_for_unique_keys accepting_db 1 empty_world)
             _ _ _ _ H1 H2).
    + apply perm_swap.
    + apply NoDup_cons. split; [|apply NoDup_singleton].
      intros Hk%list_elem_of_singleton. discriminate Hk.
Defined.

Lemma transaction_pipeline_keeps_customers db src now w :
  customers (committed (transaction_pipeline db src now w).2) = customers (committed w).
Proof.
  unfold transaction_pipeline, extract_transactions, transform_transactions,
    mbind, M_bind, bind, try_except, lift.
  destruct (transactions_feed src (now - 86400) now) as [df|e]; [|done].
  cbv beta iota. simpl fst. simpl snd.
  match goal with
  | |- context [load_transactions db now ?d ?w0] =>
      pose proof (load_transactions_keeps_customers db now d w0) as Hk;
      destruct (load_transactions db now d w0) as [[[]|e] w1]
  end; exact Hk.
Qed.

Lemma transform_customers_stops now df w :
  transform_customers now df w =
  (Raise AttributeError, (log (ERROR (TransformCustomersError AttributeError)) w).2).
Proof.
  unfold transform_customers, try_except, mbind, M_bind, bind.
  rewrite no_years_attribute. reflexivity.
Qed.

(** X19.  [run_daily_etl] never completes.  Whatever the feeds deliver
    and whatever the server accepts, the run raises, its last log record is
    the error of the daily process, and [staging.customers] is as it was
    before the run: no customer is ever loaded by it. *)
Theorem daily_run_never_completes db src now w :
  exists e w',
    run_daily_etl db src now w = (Raise e, w') /\
    customers (committed w') = customers (committed w) /\
    last (logged w') = Some (ERROR (EtlError e)).
Proof.
  pose proof (transaction_pipeline_keeps_customers db src now (log (INFO Starting) w).2)
    as Hkeep.
  unfold run_daily_etl, transaction_pipeline in *.
  unfold try_except, mbind, M_bind, bind in *.
  set (w0 := (log (INFO Starting) w).2) in *.
  change (log (INFO Starting) w) with (Ok tt, w0). cbv beta iota.
  change (customers (committed w0)) with (customers (committed w)) in Hkeep.
  destruct (extract_transactions src (now - 86400) now w0) as [[tdf|e] w1];
    [|exists e; eexists; split_and!; [done|done|apply last_snoc]].
  destruct (transform_transactions tdf w1) as [[ttdf|e] w2];
    [|exists e; eexists; split_and!; [done|done|apply last_snoc]].
  destruct (load_transactions db now ttdf w2) as [[[]|e] w3];
    [|exists e; eexists; split_and!; [done|done|apply last_snoc]].
  simpl in Hkeep.
  assert (customers (committed (extract_customers src w3).2) = customers (committed w))
    as Hext.
  { unfold extract_customers, try_except, mbind, M_bind, bind, lift.
    by destruct (customers_feed src). }
  destruct (extract_customers src w3) as [[cdf|e] w4];
    [|exists e; eexists; split_and!; [done|done|apply last_snoc]].
  rewrite transform_customers_stops. simpl in Hext.
  exists AttributeError. eexists. split_and!; [done|done|apply last_snoc].
Qed.

End load_semantics.
